(** * Nearest-centre assignment (clustering.c): a shallow embedding

    The development follows [src/clustering/src/clustering.c]:

    - C [float] is IEEE-754 binary32 and C [double] is binary64, both
      represented by [spec_float] of the Standard Library with the
      operations of [SpecFloat] at precision 24/128 and 53/1024
      (round to nearest even, float expressions evaluated in their own
      type, [sqrt] correctly rounded);
    - a read-only pointer [float *a] is the list of floats stored from the
      pointed cell onwards, so [&chunk[i*dim]] is [drop (i*dim) chunk];
    - scratch memory obtained from [malloc] lives in a heap of blocks, a
      pointer being [Some] block or [None] for [NULL];
    - a read or write outside a buffer is undefined in C: the model
      returns [None] there;
    - the counters [i] and [j] are [int] and the sizes [Py_ssize_t]:
      they are natural numbers here, which is what the code computes as
      long as the sizes fit an [int]; [argmin] is a 64-bit [size_t] and
      the store into [dtraj] keeps its low 32 bits;
    - [c_assign] is the function as built without OpenMP, where the
      pragmas are ignored, and [c_assign_omp] as built with it: a team
      of [n_threads] workers with private loop variables that take
      turns, one statement at a time, over the shared state. The
      [assert] on the size of the team is kept (the build has
      assertions on): where it fails the process aborts and the model
      has no result. The diagnostic [printf] is left out. Two
      unordered accesses to the same scratch block are a data race,
      undefined in C; the turns of the model are some of the behaviours
      the hardware can show;
    - the entry point [assign] is taken after its arguments are parsed:
      an array object is what the function reads of its header, with
      its data beside it, and the state keeps the references the call
      owns, so that one it never gives back is seen at the return. *)

From stdpp Require Import gmap strings list.
From Stdlib Require Import ZArith Lia.
From Stdlib Require Import Floats.SpecFloat.

(** ** Floating point *)

(** Both C types are read as [spec_float]; the operations below fix the
    format. *)
Abbreviation float32 := spec_float (only parsing).
Abbreviation double := spec_float (only parsing).

Definition f32_sub : float32 → float32 → float32 := SFsub 24 128.
Definition f32_mul : float32 → float32 → float32 := SFmul 24 128.
Definition f64_add : double → double → double := SFadd 53 1024.
Definition f64_sqrt : double → double := SFsqrt 53 1024.

(** Conversions of C: [float] to [double] is exact, [double] to [float]
    rounds to nearest even and overflows to an infinity. *)
Definition f64_of_f32 (x : float32) : double :=
  match x with
  | S754_finite s m e => binary_round 53 1024 s m e
  | _ => x
  end.

Definition f32_of_f64 (x : double) : float32 :=
  match x with
  | S754_finite s m e => binary_round 24 128 s m e
  | _ => x
  end.

(** [d < mindist] of C on floats: false as soon as one side is a NaN. *)
Definition f32_lt : float32 → float32 → bool := SFltb.
Definition f32_eq : float32 → float32 → bool := SFeqb.

(** [FLT_MAX] of <float.h>: (2^24 - 1) * 2^104. *)
Definition FLT_MAX : float32 := S754_finite false 16777215 104.

Definition f64_zero : double := S754_zero false.

(** A float literal [z] (an integer of small magnitude), for examples. *)
Definition f32_of_Z (z : Z) : float32 := binary_normalize 24 128 z 0 false.

(** ** Integers *)

(** [size_t] is 64 bits wide; [npy_int32] is a two's complement 32-bit
    integer and a conversion to it keeps the low 32 bits. *)
Definition to_size_t (z : Z) : Z := (z mod 2 ^ 64)%Z.
Definition to_int32 (z : Z) : Z := ((z + 2 ^ 31) mod 2 ^ 32 - 2 ^ 31)%Z.

(** ** The Euclidean metric *)

(** The loop [for(i=0; i<n; ++i) sum += (a[i]-b[i])*(a[i]-b[i]);] with
    [k] iterations left. *)
Fixpoint euclidean_loop (a b : list float32) (k i : nat) (sum : double)
  : option double :=
  match k with
  | O => Some sum
  | S k' =>
      ai ← a !! i;
      bi ← b !! i;
      euclidean_loop a b k' (S i)
        (f64_add sum (f64_of_f32 (f32_mul (f32_sub ai bi) (f32_sub ai bi))))
  end.

Definition euclidean_distance (a b : list float32) (n : nat)
    (buffer_a buffer_b : option nat) : option float32 :=
  sum ← euclidean_loop a b n 0 f64_zero;
  Some (f32_of_f64 (f64_sqrt sum)).

(** ** Memory shared by the call *)

(** What the call does to the outside, in the order it happens. *)
Inductive event :=
  | EvMalloc (n : nat) (p : option nat)
  | EvFree (p : nat)
  | EvDistance (worker i j : nat) (buffer_a buffer_b : option nat)
  | EvStore (worker i : nat) (v : Z).

Record state := {
  st_dtraj : list Z;
  st_heap : gmap nat (list float32);
  st_log : list event
}.

Definition set_heap (h : gmap nat (list float32)) (s : state) : state :=
  {| st_dtraj := st_dtraj s; st_heap := h; st_log := st_log s |}.

Definition emit (e : event) (s : state) : state :=
  {| st_dtraj := st_dtraj s; st_heap := st_heap s; st_log := st_log s ++ [e] |}.

(** [malloc(n * sizeof(float))]: [ok] is the allocator's answer. The
    fresh block is never read before [memcpy] fills it, so its initial
    content does not matter; it is filled with +0. *)
Definition malloc (ok : bool) (n : nat) (s : state) : option nat * state :=
  if ok then
    let p := fresh (dom (st_heap s)) in
    (Some p, emit (EvMalloc n (Some p))
               (set_heap (<[p := replicate n (S754_zero false)]> (st_heap s)) s))
  else (None, emit (EvMalloc n None) s).

(** [free(p)]; [free(NULL)] does nothing. *)
Definition free (p : option nat) (s : state) : state :=
  match p with
  | Some q => emit (EvFree q) (set_heap (delete q (st_heap s)) s)
  | None => s
  end.

(** [memcpy(dst, src, n*sizeof(float))] *)
Definition memcpy (dst : option nat) (src : list float32) (n : nat)
    (h : gmap nat (list float32)) : option (gmap nat (list float32)) :=
  p ← dst;
  blk ← h !! p;
  if decide (n ≤ length src ∧ n ≤ length blk)
  then Some (<[p := take n src ++ drop n blk]> h)
  else None.

(** [dtraj[i] = v] *)
Definition store_dtraj (worker i : nat) (v : Z) (s : state) : option state :=
  if decide (i < length (st_dtraj s)) then
    Some (emit (EvStore worker i v)
            {| st_dtraj := <[i := v]> (st_dtraj s);
               st_heap := st_heap s; st_log := st_log s |})
  else None.

(** ** The structural-alignment library *)

(** The two primitives of the geometry library that [minRMSD_distance]
    calls are not part of this file: they are an interface.
    [inplace_center_and_trace_atom_major coords n_frames n_atoms] gives
    the new content of the [n_frames * n_atoms * 3] floats it centres in
    place and the trace it stores (one frame here).  [msd_atom_major] is
    called with [computeRot = 0] and [rot = NULL] and only reads. *)
Class Geometry := {
  inplace_center_and_trace_atom_major :
    list float32 → nat → nat → list float32 * float32;
  msd_atom_major :
    nat → nat → list float32 → list float32 → float32 → float32 → float32;
  inplace_center_length : ∀ coords n_frames n_atoms,
    length (inplace_center_and_trace_atom_major coords n_frames n_atoms).1
    = length coords
}.

Section WithGeometry.
Context `{G : Geometry}.

(** [inplace_center_and_trace_atom_major(buf, &trace, 1, n_atoms)] on a
    block of the heap. *)
Definition center_call (buf : option nat) (n_atoms : nat)
    (h : gmap nat (list float32)) : option (float32 * gmap nat (list float32)) :=
  p ← buf;
  blk ← h !! p;
  if decide (3 * n_atoms ≤ length blk) then
    let r := inplace_center_and_trace_atom_major (take (3 * n_atoms) blk) 1 n_atoms in
    Some (r.2, <[p := r.1 ++ drop (3 * n_atoms) blk]> h)
  else None.

(** [msd_atom_major(n_atoms, n_atoms, buffer_a, buffer_b, trace_a, trace_b, 0, NULL)] *)
Definition msd_call (n_atoms : nat) (buffer_a buffer_b : option nat)
    (trace_a trace_b : float32) (h : gmap nat (list float32)) : option float32 :=
  p ← buffer_a;
  q ← buffer_b;
  x ← h !! p;
  y ← h !! q;
  if decide (3 * n_atoms ≤ length x ∧ 3 * n_atoms ≤ length y) then
    Some (msd_atom_major n_atoms n_atoms
            (take (3 * n_atoms) x) (take (3 * n_atoms) y) trace_a trace_b)
  else None.

(** [return sqrt(msd)]: [msd] is widened, the root is taken in double
    and the result is narrowed to the [float] return type. *)
Definition sqrt_of_msd (msd : float32) : float32 :=
  f32_of_f64 (f64_sqrt (f64_of_f32 msd)).

(** ** The minRMSD metric *)

Definition minRMSD_distance (a b : list float32) (n : nat)
    (buffer_a buffer_b : option nat) (h : gmap nat (list float32))
  : option (float32 * gmap nat (list float32)) :=
  h1 ← memcpy buffer_a a n h;
  h2 ← memcpy buffer_b b n h1;
  '(trace_a, h3) ← center_call buffer_a (n / 3) h2;
  '(trace_b, h4) ← center_call buffer_b (n / 3) h3;
  msd ← msd_call (n / 3) buffer_a buffer_b trace_a trace_b h4;
  Some (sqrt_of_msd msd, h4).

(** ** The assignment engine *)

Inductive status := ASSIGN_SUCCESS | ASSIGN_ERR_NO_MEMORY | ASSIGN_ERR_INVALID_METRIC.

(** The function pointer [distance] takes one of two values. *)
Inductive metric_fn := Euclidean | MinRMSD.

Definition distance (m : metric_fn) (a b : list float32) (n : nat)
    (buffer_a buffer_b : option nat) (h : gmap nat (list float32))
  : option (float32 * gmap nat (list float32)) :=
  match m with
  | Euclidean => d ← euclidean_distance a b n buffer_a buffer_b; Some (d, h)
  | MinRMSD => minRMSD_distance a b n buffer_a buffer_b h
  end.

(** [if(d < mindist) { mindist = d; argmin = j; }] *)
Definition update_min (d : float32) (j : nat) (best : float32 * Z) : float32 * Z :=
  if f32_lt d best.1 then (d, to_size_t (Z.of_nat j)) else best.

Section Loops.
Variables (m : metric_fn) (chunk centers : list float32).
Variables (N_centers dim : nat) (buffer_a buffer_b : option nat).

(** [for(j = 0; j < N_centers; ++j)] for frame [i], with [k] iterations
    left; [best] is the pair of [mindist] and [argmin]. *)
Fixpoint scan_centers (worker i k j : nat) (best : float32 * Z) (s : state)
  : option (float32 * Z * state) :=
  match k with
  | O => Some (best, s)
  | S k' =>
      '(d, h) ← distance m (drop (i * dim) chunk) (drop (j * dim) centers) dim
                  buffer_a buffer_b (st_heap s);
      scan_centers worker i k' (S j) (update_min d j best)
        (set_heap h (emit (EvDistance worker i j buffer_a buffer_b) s))
  end.

(** The body of [for(i = 0; i < N_frames; ++i)]. *)
Definition assign_frame (worker i : nat) (s : state) : option state :=
  '(best, s1) ← scan_centers worker i N_centers 0 (FLT_MAX, to_size_t (-1)) s;
  store_dtraj worker i (to_int32 best.2) s1.

(** The loop over the frames as one thread runs it. *)
Fixpoint assign_frames (k i : nat) (s : state) : option state :=
  match k with
  | O => Some s
  | S k' => s1 ← assign_frame 0 i s; assign_frames k' (S i) s1
  end.

End Loops.

Definition is_null (p : option nat) : bool :=
  match p with Some _ => false | None => true end.

(** [c_assign] around the loop over the frames, which [region] runs:
    the plain loop in a build without OpenMP, the workers with it. *)
Definition c_assign_with
    (region : metric_fn → option nat → option nat → state → option state)
    (metric : string) (dim : nat) (malloc_a_ok malloc_b_ok : bool) (s : state)
  : option (status * state) :=
  let buffer_a : option nat := None in
  let buffer_b : option nat := None in
  if String.eqb metric "euclidean" then
    s1 ← region Euclidean buffer_a buffer_b s;
    Some (ASSIGN_SUCCESS, free buffer_b (free buffer_a s1))
  else if String.eqb metric "minRMSD" then
    let '(buffer_a, s1) := malloc malloc_a_ok dim s in
    let '(buffer_b, s2) := malloc malloc_b_ok dim s1 in
    if is_null buffer_a || is_null buffer_b then
      Some (ASSIGN_ERR_NO_MEMORY, free buffer_b (free buffer_a s2))
    else
      s3 ← region MinRMSD buffer_a buffer_b s2;
      Some (ASSIGN_SUCCESS, free buffer_b (free buffer_a s3))
  else
    Some (ASSIGN_ERR_INVALID_METRIC, free buffer_b (free buffer_a s)).

(** The build without [USE_OPENMP]: the pragmas are ignored. *)
Definition c_assign (chunk centers : list float32) (metric : string)
    (N_frames N_centers dim n_threads : nat)
    (malloc_a_ok malloc_b_ok : bool) (s : state) : option (status * state) :=
  c_assign_with
    (λ m buffer_a buffer_b,
       assign_frames m chunk centers N_centers dim buffer_a buffer_b N_frames 0)
    metric dim malloc_a_ok malloc_b_ok s.

(** ** The build with [USE_OPENMP] *)

(** Where a worker stands: at the head of the loop over its frames, at
    the head of the loop over the centres, or inside [minRMSD_distance]
    before one of its statements after the first. *)
Inductive pc := AtFrame | AtCenter | AtMemcpyB | AtCenterA | AtCenterB | AtMsd | AtEnd.

(** The variables [private] to a worker: [i], [j], [mindist] and
    [argmin] of the clause, the locals of the running call of
    [minRMSD_distance], and the frames of its chunks still to start.
    Everything else, the two scratch pointers included, is shared. *)
Record worker := {
  w_todo : list nat;
  w_pc : pc;
  w_i : nat;
  w_j : nat;
  w_best : float32 * Z;
  w_trace_a : float32;
  w_trace_b : float32
}.

Definition at_pc (c : pc) (w : worker) : worker :=
  {| w_todo := w_todo w; w_pc := c; w_i := w_i w; w_j := w_j w;
     w_best := w_best w; w_trace_a := w_trace_a w; w_trace_b := w_trace_b w |}.

(** After [d = distance(...)]: the comparison and [++j]. *)
Definition next_center (d : float32) (w : worker) : worker :=
  {| w_todo := w_todo w; w_pc := AtCenter; w_i := w_i w; w_j := S (w_j w);
     w_best := update_min d (w_j w) (w_best w);
     w_trace_a := w_trace_a w; w_trace_b := w_trace_b w |}.

(** [schedule(static, 10)]: the frames are cut into blocks of 10 and
    block [c] goes to worker [c mod n_threads]. *)
Definition frames_of (n_threads N_frames id : nat) : list nat :=
  filter (λ i, (i / 10) mod n_threads = id) (seq 0 N_frames).

Definition init_worker (n_threads N_frames id : nat) : worker :=
  {| w_todo := frames_of n_threads N_frames id; w_pc := AtFrame;
     w_i := 0; w_j := 0; w_best := (FLT_MAX, to_size_t (-1));
     w_trace_a := S754_zero false; w_trace_b := S754_zero false |}.

Section Workers.
Variables (m : metric_fn) (chunk centers : list float32).
Variables (N_centers dim : nat) (buffer_a buffer_b : option nat).

(** One statement of worker [id]. *)
Definition worker_step (id : nat) (w : worker) (s : state)
  : option (worker * state) :=
  let a := drop (w_i w * dim) chunk in
  let b := drop (w_j w * dim) centers in
  match w_pc w with
  | AtFrame =>
      match w_todo w with
      | [] => Some (at_pc AtEnd w, s)
      | i :: rest =>
          Some ({| w_todo := rest; w_pc := AtCenter; w_i := i; w_j := 0;
                   w_best := (FLT_MAX, to_size_t (-1));
                   w_trace_a := w_trace_a w; w_trace_b := w_trace_b w |}, s)
      end
  | AtCenter =>
      if decide (w_j w < N_centers) then
        let s1 := emit (EvDistance id (w_i w) (w_j w) buffer_a buffer_b) s in
        match m with
        | Euclidean =>
            d ← euclidean_distance a b dim buffer_a buffer_b;
            Some (next_center d w, s1)
        | MinRMSD =>
            h ← memcpy buffer_a a dim (st_heap s1);
            Some (at_pc AtMemcpyB w, set_heap h s1)
        end
      else
        s1 ← store_dtraj id (w_i w) (to_int32 (w_best w).2) s;
        Some (at_pc AtFrame w, s1)
  | AtMemcpyB =>
      h ← memcpy buffer_b b dim (st_heap s);
      Some (at_pc AtCenterA w, set_heap h s)
  | AtCenterA =>
      '(t, h) ← center_call buffer_a (dim / 3) (st_heap s);
      Some ({| w_todo := w_todo w; w_pc := AtCenterB; w_i := w_i w;
               w_j := w_j w; w_best := w_best w;
               w_trace_a := t; w_trace_b := w_trace_b w |}, set_heap h s)
  | AtCenterB =>
      '(t, h) ← center_call buffer_b (dim / 3) (st_heap s);
      Some ({| w_todo := w_todo w; w_pc := AtMsd; w_i := w_i w;
               w_j := w_j w; w_best := w_best w;
               w_trace_a := w_trace_a w; w_trace_b := t |}, set_heap h s)
  | AtMsd =>
      msd ← msd_call (dim / 3) buffer_a buffer_b (w_trace_a w) (w_trace_b w)
              (st_heap s);
      Some (next_center (sqrt_of_msd msd) w, s)
  | AtEnd => Some (w, s)
  end.

(** Worker [id] of the team takes its turn; a turn given to a worker
    that has finished, or to none, changes nothing. *)
Definition omp_step (id : nat) (ps : list worker * state)
  : option (list worker * state) :=
  match ps.1 !! id with
  | Some w =>
      '(w', s') ← worker_step id w ps.2;
      Some (<[id := w']> ps.1, s')
  | None => Some ps
  end.

Fixpoint omp_run (sched : list nat) (ps : list worker * state)
  : option (list worker * state) :=
  match sched with
  | [] => Some ps
  | id :: sched' => ps' ← omp_step id ps; omp_run sched' ps'
  end.

End Workers.

(** A worker runs at most this many statements. *)
Definition omp_bound (N_frames N_centers : nat) : nat :=
  N_frames * (5 * N_centers + 2) + 1.

(** The barrier that ends the region: whoever has not finished when
    the interleaving [sched] is used up runs to its end. *)
Definition omp_drain (n_threads N_frames N_centers : nat) : list nat :=
  id ← seq 0 n_threads; replicate (omp_bound N_frames N_centers) id.

(** [omp_get_num_threads()] inside the region that follows
    [omp_set_num_threads(n_threads)]: the runtime is taken to grant the
    team it is asked for; asked for no thread (the argument is an [int]
    and can be anything below 1), it still runs one. *)
Definition omp_get_num_threads (n_threads : nat) : nat := Nat.max 1 n_threads.

(** The parallel region. Every thread starts with
    [assert(omp_get_num_threads() == n_threads)]: if the team is not the
    one asked for the process aborts before any frame is looked at, and
    there is no result. Otherwise the [n_threads] workers run,
    interleaved as [sched] says. *)
Definition omp_region (chunk centers : list float32)
    (N_frames N_centers dim n_threads : nat) (sched : list nat)
    (m : metric_fn) (buffer_a buffer_b : option nat) (s : state) : option state :=
  if decide (omp_get_num_threads n_threads = n_threads) then
    ps ← omp_run m chunk centers N_centers dim buffer_a buffer_b
           (sched ++ omp_drain n_threads N_frames N_centers)
           (init_worker n_threads N_frames <$> seq 0 n_threads, s);
    Some ps.2
  else None.

Definition c_assign_omp (chunk centers : list float32) (metric : string)
    (N_frames N_centers dim n_threads : nat) (sched : list nat)
    (malloc_a_ok malloc_b_ok : bool) (s : state) : option (status * state) :=
  c_assign_with (omp_region chunk centers N_frames N_centers dim n_threads sched)
    metric dim malloc_a_ok malloc_b_ok s.

End WithGeometry.

(** ** What the specification says the metrics compute *)

(** One term of the Euclidean sum: the difference and its square are
    [float] expressions, widened when added to the [double] sum. *)
Definition sq_diff (x y : float32) : double :=
  f64_of_f32 (f32_mul (f32_sub x y) (f32_sub x y)).

(** Square root of the sum, accumulated in double precision from the
    first component on, of the squared differences of the first [n]
    components, narrowed to [float]. *)
Definition euclidean_spec (a b : list float32) (n : nat) : float32 :=
  f32_of_f64
    (f64_sqrt (foldl f64_add f64_zero (zip_with sq_diff (take n a) (take n b)))).

Section SpecWithGeometry.
Context `{G : Geometry}.

(** Copy both vectors, centre each copy and keep its trace, take the
    minimal mean squared deviation of the two centred sets of [n/3]
    points from the library. *)
Definition minRMSD_msd (a b : list float32) (n : nat) : float32 :=
  let copy_a := take n a in
  let copy_b := take n b in
  let ca := inplace_center_and_trace_atom_major copy_a 1 (n / 3) in
  let cb := inplace_center_and_trace_atom_major copy_b 1 (n / 3) in
  msd_atom_major (n / 3) (n / 3) ca.1 cb.1 ca.2 cb.2.

(** The value [minRMSD_distance] returns for any [n]: the library is
    given the first [n/3] whole points. *)
Definition minRMSD_value (a b : list float32) (n : nat) : float32 :=
  let ca := inplace_center_and_trace_atom_major (take (3 * (n / 3)) a) 1 (n / 3) in
  let cb := inplace_center_and_trace_atom_major (take (3 * (n / 3)) b) 1 (n / 3) in
  sqrt_of_msd (msd_atom_major (n / 3) (n / 3) ca.1 cb.1 ca.2 cb.2).

(** The distance of frame [i] to centre [j]: what the call
    [distance(&chunk[i*dim], &centers[j*dim], dim, buffer_a, buffer_b)]
    returns on well-formed input (lemma [distance_ok]). *)
Definition dist_value (m : metric_fn) (chunk centers : list float32)
    (dim i j : nat) : float32 :=
  match m with
  | Euclidean => euclidean_spec (drop (i * dim) chunk) (drop (j * dim) centers) dim
  | MinRMSD => minRMSD_value (drop (i * dim) chunk) (drop (j * dim) centers) dim
  end.

End SpecWithGeometry.

(** The scan over a list of distances, the first of them of centre [j]. *)
Fixpoint scan_pure (ds : list float32) (j : nat) (best : float32 * Z)
  : float32 * Z :=
  match ds with
  | [] => best
  | d :: ds' => scan_pure ds' (S j) (update_min d j best)
  end.

(** The name a caller passes for a metric. *)
Definition metric_name (m : metric_fn) : string :=
  match m with Euclidean => "euclidean" | MinRMSD => "minRMSD" end.

(** The shapes the adapter guarantees. *)
Definition well_formed (chunk centers : list float32) (N_frames N_centers dim : nat)
    (s : state) : Prop :=
  length chunk = N_frames * dim ∧ length centers = N_centers * dim ∧
  length (st_dtraj s) = N_frames.

(** ** A library to run the engine on examples *)

(** An instance of the interface that superposes centroids and does
    not rotate. It is not the library the engine is linked with; it
    serves to evaluate the engine on concrete inputs. *)
Definition f32_add : float32 → float32 → float32 := SFadd 24 128.
Definition f32_div : float32 → float32 → float32 := SFdiv 24 128.

Definition axis_sum (c : nat) (coords : list float32) : float32 :=
  foldl f32_add (S754_zero false)
    (imap (λ k x, if decide (k mod 3 = c) then x else S754_zero false) coords).

Definition shift_center (coords : list float32) (n_frames n_atoms : nat)
  : list float32 * float32 :=
  let n := f32_of_Z (Z.of_nat n_atoms) in
  let centred :=
    imap (λ k x, f32_sub x (f32_div (axis_sum (k mod 3) coords) n)) coords in
  (centred, foldl f32_add (S754_zero false) (zip_with f32_mul centred centred)).

Definition shift_msd (nreal npadded : nat) (a b : list float32)
    (G_a G_b : float32) : float32 :=
  let dot := foldl f32_add (S754_zero false) (zip_with f32_mul a b) in
  f32_div (f32_sub (f32_add G_a G_b) (f32_add dot dot)) (f32_of_Z (Z.of_nat nreal)).

Definition shift_geometry : Geometry :=
  {| inplace_center_and_trace_atom_major := shift_center;
     msd_atom_major := shift_msd;
     inplace_center_length := λ coords _ _, length_imap _ coords |}.

Definition init_state (dtraj : list Z) : state :=
  {| st_dtraj := dtraj; st_heap := ∅; st_log := [] |}.

(** ** Predicates and values the properties are stated with *)

Section ProofDefinitions.
Context `{G : Geometry}.

(** The block a scratch buffer holds after a call: the centred copy,
    then what the call left untouched. *)
Definition scratch_after (src x : list float32) (n : nat) : list float32 :=
  (inplace_center_and_trace_atom_major (take (3 * (n / 3)) src) 1 (n / 3)).1
  ++ drop (3 * (n / 3)) (take n src ++ drop n x).

(** What the selected metric needs of the scratch pointers: nothing for
    the Euclidean one, two distinct live blocks of [dim] floats for
    minRMSD. *)
Definition scratch_ok (m : metric_fn) (dim : nat) (buffer_a buffer_b : option nat)
    (h : gmap nat (list float32)) : Prop :=
  match m with
  | Euclidean => True
  | MinRMSD =>
      ∃ p q x y, buffer_a = Some p ∧ buffer_b = Some q ∧ p ≠ q ∧
        h !! p = Some x ∧ h !! q = Some y ∧ dim ≤ length x ∧ dim ≤ length y
  end.

(** Blocks other than the scratch buffers keep their content. *)
Definition heap_frame (buffer_a buffer_b : option nat)
    (h h' : gmap nat (list float32)) : Prop :=
  ∀ r, buffer_a ≠ Some r → buffer_b ≠ Some r → h' !! r = h !! r.

(** The distances of frame [i] to the centres [j], ..., [j+k-1]. *)
Definition distances (m : metric_fn) (chunk centers : list float32)
    (dim i j k : nat) : list float32 :=
  dist_value m chunk centers dim i <$> seq j k.

(** The index the scan of frame [i] ends with, as stored in [dtraj]. *)
Definition assigned (m : metric_fn) (chunk centers : list float32)
    (N_centers dim i : nat) : Z :=
  to_int32 (scan_pure (distances m chunk centers dim i 0 N_centers) 0
              (FLT_MAX, to_size_t (-1))).2.

(** The statements a worker has yet to run. *)
Definition steps_left (N_centers : nat) (w : worker) : nat :=
  match w_pc w with
  | AtFrame => 1 + length (w_todo w) * (N_centers + 2)
  | AtCenter => (N_centers - w_j w) + 2 + length (w_todo w) * (N_centers + 2)
  | _ => 0
  end.

(** A worker has stored the right index for the frames it is done with
    ([finished]), and its scan of the current frame is the scan of the
    distances seen so far. *)
Definition worker_inv (chunk centers : list float32)
    (N_frames N_centers dim n_threads id : nat) (w : worker) (dtraj : list Z) : Prop :=
  ∃ finished cur,
    frames_of n_threads N_frames id = finished ++ cur ++ w_todo w
    ∧ (∀ i, i ∈ finished →
         dtraj !! i = Some (assigned Euclidean chunk centers N_centers dim i))
    ∧ match w_pc w with
      | AtFrame => cur = []
      | AtCenter =>
          cur = [w_i w] ∧ w_j w ≤ N_centers
          ∧ w_best w
            = scan_pure (distances Euclidean chunk centers dim (w_i w) 0 (w_j w))
                0 (FLT_MAX, to_size_t (-1))
      | AtEnd => cur = [] ∧ w_todo w = []
      | _ => False
      end.

Definition team_inv (chunk centers : list float32)
    (N_frames N_centers dim n_threads : nat) (ps : list worker * state) : Prop :=
  length (st_dtraj ps.2) = N_frames
  ∧ ∀ id w, ps.1 !! id = Some w →
      worker_inv chunk centers N_frames N_centers dim n_threads id w (st_dtraj ps.2).

End ProofDefinitions.

(** What holds of [mindist] and [argmin] after the scan of [ds]: either
    no distance was below [FLT_MAX] and both have their initial value,
    or [argmin] is the first index of a distance below [FLT_MAX] that no
    distance is below. *)
Definition scan_result (ds : list float32) (best : float32 * Z) : Prop :=
  ((∀ k d, ds !! k = Some d → f32_lt d FLT_MAX = false)
   ∧ best = (FLT_MAX, to_size_t (-1)))
  ∨ (∃ a, ds !! a = Some best.1 ∧ best.2 = to_size_t (Z.of_nat a)
        ∧ f32_lt best.1 FLT_MAX = true
        ∧ (∀ k d, ds !! k = Some d → f32_lt d best.1 = false)
        ∧ (∀ k d, k < a → ds !! k = Some d → f32_eq d best.1 = false)).

(** Events that are neither a distance evaluation nor a store. *)
Definition is_alloc_event (e : event) : Prop :=
  match e with
  | EvMalloc _ _ | EvFree _ => True
  | EvDistance _ _ _ _ _ | EvStore _ _ _ => False
  end.

(** Inputs of the examples. *)
Definition vec (l : list Z) : list float32 := f32_of_Z <$> l.
Definition neg_FLT_MAX : float32 := S754_finite true 16777215 104.

(** The Euclidean distance of the frame [FLT_MAX] to centre [k] of two
    centres [-FLT_MAX]. *)
Definition overflow_dist (k : nat) : float32 :=
  dist_value (G := shift_geometry) Euclidean
    [FLT_MAX] [neg_FLT_MAX; neg_FLT_MAX] 1 0 k.

(** Inputs of the minRMSD examples: ten frames equal to the first
    centre, an eleventh frame, two centres, two atoms each. *)
Definition race_centers : list float32 :=
  vec [0; 0; 0; 2; 0; 0]%Z ++ vec [0; 0; 0; 3; 0; 0]%Z.
Definition race_chunk : list float32 :=
  mjoin (replicate 10 (vec [0; 0; 0; 2; 0; 0]%Z)) ++ vec [0; 0; 0; 0; 4; 0]%Z.

(** Worker 0 runs up to its first call of [msd_atom_major], then worker
    1 starts its first frame and overwrites both scratch buffers. *)
Definition race_sched : list nat := [0; 0; 0; 0; 0; 1; 1; 1; 1].

(** The events of the parallel region: distance evaluations with the
    scratch pointers of the call, and stores. *)
Definition region_event (buffer_a buffer_b : option nat) (e : event) : Prop :=
  match e with
  | EvDistance _ _ _ x y => x = buffer_a ∧ y = buffer_b
  | EvStore _ _ _ => True
  | EvMalloc _ _ | EvFree _ => False
  end.

(** ** The Python entry point [assign] *)

(** The type number of an array, as far as [assign] tells them apart. *)
Inductive npy_type := NPY_FLOAT32 | NPY_INT32 | NPY_OTHER.

(** What [assign] reads of a [PyArrayObject] besides its data: the
    type number, the answers of the macros [PyArray_ISCARRAY_RO] and
    [PyArray_ISBEHAVED_RO], the number of dimensions and the
    [dimensions] field. *)
Record ndarray := {
  nd_type : npy_type;
  nd_iscarray_ro : bool;
  nd_isbehaved_ro : bool;
  nd_ndim : nat;
  nd_dimensions : list nat
}.

(** The errors of [assign], in the order of the source. Their
    messages: 'dtype of chunk isn't float (32).', 'chunk isn't C-style
    contiguous or isn't behaved.', 'Number of dimensions of chunk isn't
    2.', 'chunk dimension must be larger than zero.', 'dtype of dtraj
    isn't int (32).', 'dtraj isn't behaved.', 'Number of dimensions of
    dtraj isn't 1.', 'Size of dtraj differs from number of frames in
    chunk.', 'Could not convert centers to two-dimensional C-contiguous
    behaved ndarray of float (32).', 'centers must contain at least one
    element.', 'Dimension of cluster centers doesn't match dimension of
    frames.', 'metric must be one of euclidean or minRMSD.'; the last
    one is [PyErr_NoMemory]. *)
Inductive assign_error :=
  | ErrChunkDtype | ErrChunkLayout | ErrChunkNdim | ErrChunkDimZero
  | ErrDtrajDtype | ErrDtrajLayout | ErrDtrajNdim | ErrDtrajSize
  | ErrCentersConvert | ErrCentersEmpty | ErrCentersDim
  | ErrMetric | ErrNoMemory.

Inductive py_exception := ValueError | MemoryError.

Definition exception_of (e : assign_error) : py_exception :=
  match e with
  | ErrNoMemory => MemoryError
  | _ => ValueError
  end.

(** What [assign] returns: [None] of Python, or [NULL] with an
    exception set. *)
Inductive py_result := Py_None | Py_raise (e : assign_error).

Definition is_float32 (t : npy_type) : bool :=
  match t with NPY_FLOAT32 => true | _ => false end.
Definition is_int32 (t : npy_type) : bool :=
  match t with NPY_INT32 => true | _ => false end.

(** The state [assign] runs in: the memory the engine works on, and
    the new references to array objects that the call has obtained and
    not given back with [Py_DECREF]. What is still in [py_owned] when
    the function returns is never released. *)
Record py_state := {
  py_c : state;
  py_owned : list (ndarray * list float32)
}.

Definition with_c (c : state) (s : py_state) : py_state :=
  {| py_c := c; py_owned := py_owned s |}.

(** [PyArray_ContiguousFromAny(py_centers, NPY_FLOAT32, 2, 2)]:
    [converted] is numpy's answer for the object [py_centers], [None]
    for [NULL], else the header and the data of the array. The array
    comes as a new reference, which the caller owns. *)
Definition PyArray_ContiguousFromAny (converted : option (ndarray * list float32))
    (s : py_state) : option (ndarray * list float32) * py_state :=
  match converted with
  | None => (None, s)
  | Some a => (Some a, {| py_c := py_c s; py_owned := a :: py_owned s |})
  end.

(** [assign] after [PyArg_ParseTuple] has succeeded (its references are
    borrowed). [chunk] is [PyArray_DATA(np_chunk)], the data of
    [np_dtraj] is the [st_dtraj] of the state and [py_centers] stands for
    the object of that name through what the conversion makes of it.
    [engine] is [c_assign] as built. Every path ends in [return py_res]
    with no [Py_DECREF] before it. *)
Definition assign_with
    (engine : list float32 → list float32 → string → nat → nat → nat → nat →
              bool → bool → state → option (status * state))
    (np_chunk : ndarray) (chunk : list float32)
    (py_centers : option (ndarray * list float32)) (np_dtraj : ndarray)
    (metric : string) (n_threads : nat) (malloc_a_ok malloc_b_ok : bool)
    (s : py_state) : option (py_result * py_state) :=
  if negb (is_float32 (nd_type np_chunk)) then Some (Py_raise ErrChunkDtype, s)
  else if negb (nd_iscarray_ro np_chunk) then Some (Py_raise ErrChunkLayout, s)
  else if negb (Nat.eqb (nd_ndim np_chunk) 2) then Some (Py_raise ErrChunkNdim, s)
  else
    N_frames ← nd_dimensions np_chunk !! 0;
    dim ← nd_dimensions np_chunk !! 1;
    if Nat.eqb dim 0 then Some (Py_raise ErrChunkDimZero, s)
    else if negb (is_int32 (nd_type np_dtraj)) then Some (Py_raise ErrDtrajDtype, s)
    else if negb (nd_isbehaved_ro np_dtraj) then Some (Py_raise ErrDtrajLayout, s)
    else if negb (Nat.eqb (nd_ndim np_dtraj) 1) then Some (Py_raise ErrDtrajNdim, s)
    else
      chunk_dim0 ← nd_dimensions np_chunk !! 0;
      if negb (Nat.eqb chunk_dim0 N_frames) then Some (Py_raise ErrDtrajSize, s)
      else
        let '(np_centers, s1) := PyArray_ContiguousFromAny py_centers s in
        match np_centers with
        | None => Some (Py_raise ErrCentersConvert, s1)
        | Some (c, centers) =>
            N_centers ← nd_dimensions c !! 0;
            if Nat.eqb N_centers 0 then Some (Py_raise ErrCentersEmpty, s1)
            else
              centers_dim1 ← nd_dimensions c !! 1;
              if negb (Nat.eqb centers_dim1 dim)
              then Some (Py_raise ErrCentersDim, s1)
              else
                '(ret, c') ← engine chunk centers metric N_frames N_centers dim
                               n_threads malloc_a_ok malloc_b_ok (py_c s1);
                match ret with
                | ASSIGN_ERR_INVALID_METRIC =>
                    Some (Py_raise ErrMetric, with_c c' s1)
                | ASSIGN_ERR_NO_MEMORY => Some (Py_raise ErrNoMemory, with_c c' s1)
                | ASSIGN_SUCCESS => Some (Py_None, with_c c' s1)
                end
        end.

Definition assign `{G : Geometry} := assign_with c_assign.

Definition assign_omp `{G : Geometry} (sched : list nat) :=
  assign_with
    (λ chunk centers metric N_frames N_centers dim n_threads,
       c_assign_omp chunk centers metric N_frames N_centers dim n_threads sched).

(** The state at the start of a call on the output buffer [dtraj], with
    nothing allocated and no reference owned. *)
Definition py_init (dtraj : list Z) : py_state :=
  {| py_c := init_state dtraj; py_owned := [] |}.

(** The arrays a caller can build with numpy: a C-contiguous float32
    matrix with its data, and a one-dimensional int32 array with
    [n] elements. *)
Definition float_matrix (rows cols : nat) : ndarray :=
  {| nd_type := NPY_FLOAT32; nd_iscarray_ro := true; nd_isbehaved_ro := true;
     nd_ndim := 2; nd_dimensions := [rows; cols] |}.

Definition int_vector (n : nat) : ndarray :=
  {| nd_type := NPY_INT32; nd_iscarray_ro := true; nd_isbehaved_ro := true;
     nd_ndim := 1; nd_dimensions := [n] |}.

(** ** Further predicates on floats *)

(** Not negative: +0, a positive number, +inf, or a NaN. *)
Definition nonneg (x : float32) : Prop :=
  match x with
  | S754_zero s | S754_infinity s | S754_finite s _ _ => s = false
  | S754_nan => True
  end.

(** A zero or a finite number. *)
Definition is_finite (x : float32) : Prop :=
  match x with
  | S754_zero _ | S754_finite _ _ _ => True
  | S754_infinity _ | S754_nan => False
  end.

(** ** The events of the serial loop *)

(** The events of frame [i]: one distance evaluation per centre, in
    the order of the centres, then the store of [v]. *)
Definition frame_trace (N_centers : nat) (buffer_a buffer_b : option nat)
    (i : nat) (v : Z) : list event :=
  ((λ j, EvDistance 0 i j buffer_a buffer_b) <$> seq 0 N_centers)
  ++ [EvStore 0 i v].

(** The events of the frames [i], ..., [i+k-1], each storing the index
    its scan ends with. *)
Definition serial_trace `{G : Geometry} (m : metric_fn)
    (chunk centers : list float32) (N_centers dim : nat)
    (buffer_a buffer_b : option nat) (i k : nat) : list event :=
  i' ← seq i k;
  frame_trace N_centers buffer_a buffer_b i'
    (assigned m chunk centers N_centers dim i').

(** A worker with no frame to start and none in progress. *)
Definition idle (w : worker) : Prop :=
  w_todo w = [] ∧ (w_pc w = AtFrame ∨ w_pc w = AtEnd).

(** ** What [assign] checks *)

(** Every test of [assign] passes: the chunk is a C-contiguous
    float32 array with two dimensions [N_frames] and [dim], [dim] not
    zero; [dtraj] is a behaved int32 array with one dimension; the
    centres convert to an array of [N_centers] rows, not zero, and [dim]
    columns, with data [centers]. *)
Definition accepted (np_chunk : ndarray)
    (np_centers : option (ndarray * list float32)) (np_dtraj : ndarray)
    (centers : list float32) (N_frames N_centers dim : nat) : Prop :=
  nd_type np_chunk = NPY_FLOAT32 ∧ nd_iscarray_ro np_chunk = true
  ∧ nd_ndim np_chunk = 2
  ∧ nd_dimensions np_chunk !! 0 = Some N_frames
  ∧ nd_dimensions np_chunk !! 1 = Some dim ∧ dim ≠ 0
  ∧ nd_type np_dtraj = NPY_INT32 ∧ nd_isbehaved_ro np_dtraj = true
  ∧ nd_ndim np_dtraj = 1
  ∧ ∃ c, np_centers = Some (c, centers)
       ∧ nd_dimensions c !! 0 = Some N_centers ∧ N_centers ≠ 0
       ∧ nd_dimensions c !! 1 = Some dim.

(** From [s] to [s'] nothing happened but allocations and releases
    that left the heap as it was. *)
Definition only_allocated (s s' : state) : Prop :=
  st_dtraj s' = st_dtraj s ∧ st_heap s' = st_heap s
  ∧ ∃ l, st_log s' = st_log s ++ l ∧ ∀ e, e ∈ l → is_alloc_event e.

(** The results [assign] reaches with the converted centres in hand:
    None, and the errors raised after the conversion has succeeded. *)
Definition holds_centres (r : py_result) : bool :=
  match r with
  | Py_None => true
  | Py_raise (ErrCentersEmpty | ErrCentersDim | ErrMetric | ErrNoMemory) => true
  | Py_raise _ => false
  end.

(** From [s] to [s'] the call has kept the one reference it took on the
    array the centres were converted to. *)
Definition keeps_centres (py_centers : option (ndarray * list float32))
    (s s' : py_state) : Prop :=
  ∃ a, py_centers = Some a ∧ py_owned s' = a :: py_owned s.

(** * Properties *)

(** ** The order on floats *)

Ltac sf_destruct :=
  repeat match goal with
         | x : spec_float |- _ => destruct x as [[]|[]| |[] ? ?]
         end.

Ltac sf_compare :=
  unfold f32_lt, f32_eq, SFltb, SFeqb, SFcompare in *;
  repeat match goal with
         | H : context [Z.compare ?a ?b] |- _ => destruct (Z.compare_spec a b); subst
         | |- context [Z.compare ?a ?b] => destruct (Z.compare_spec a b); subst
         | H : context [Pos.compare_cont Eq ?a ?b] |- _ =>
             change (Pos.compare_cont Eq a b) with (Pos.compare a b) in *;
             destruct (Pos.compare_spec a b); subst
         | |- context [Pos.compare_cont Eq ?a ?b] =>
             change (Pos.compare_cont Eq a b) with (Pos.compare a b) in *;
             destruct (Pos.compare_spec a b); subst
         end;
  simpl in *; try done; try lia.

Lemma f32_lt_trans x y z :
  f32_lt x y = true → f32_lt y z = true → f32_lt x z = true.
Proof. sf_destruct; intros; sf_compare. Qed.

Lemma f32_lt_irrefl x : f32_lt x x = false.
Proof. sf_destruct; sf_compare. Qed.

Lemma f32_eq_lt_l x y z :
  f32_eq x y = true → f32_lt y z = true → f32_lt x z = true.
Proof. sf_destruct; intros; sf_compare. Qed.

Lemma f32_eq_lt_r x y z :
  f32_eq y z = true → f32_lt x y = true → f32_lt x z = true.
Proof. sf_destruct; intros; sf_compare. Qed.

Lemma f32_eq_sym x y : f32_eq x y = true → f32_eq y x = true.
Proof. sf_destruct; intros; sf_compare. Qed.

Lemma f32_eq_trans x y z :
  f32_eq x y = true → f32_eq y z = true → f32_eq x z = true.
Proof. sf_destruct; intros; sf_compare. Qed.

Lemma f32_lt_not_eq x y : f32_lt x y = true → f32_eq x y = false.
Proof. sf_destruct; intros; sf_compare. Qed.

(** Two floats below some float are no NaN: they compare. *)
Lemma f32_total x y u v :
  f32_lt x u = true → f32_lt y v = true →
  f32_lt x y = false → f32_lt y x = false → f32_eq x y = true.
Proof. sf_destruct; intros; sf_compare. Qed.

Lemma f32_lt_nan_l x : f32_lt S754_nan x = false.
Proof. done. Qed.

(** ** NaN goes through the Euclidean metric *)

Lemma sq_diff_nan_l y : sq_diff S754_nan y = S754_nan.
Proof. done. Qed.

Lemma sq_diff_nan_r x : sq_diff x S754_nan = S754_nan.
Proof. by destruct x as [[]|[]| |[] ? ?]. Qed.

Lemma f64_add_nan_r x : f64_add x S754_nan = S754_nan.
Proof. by destruct x as [[]|[]| |[] ? ?]. Qed.

Lemma foldl_f64_add_nan l : foldl f64_add S754_nan l = S754_nan.
Proof. induction l as [|x l IH]; [done|]. by simpl. Qed.

Lemma foldl_f64_add_has_nan l acc :
  S754_nan ∈ l → foldl f64_add acc l = S754_nan.
Proof.
  revert acc. induction l as [|x l IH]; intros acc Hin.
  - by apply elem_of_nil in Hin.
  - apply elem_of_cons in Hin as [<-|Hin]; simpl.
    + rewrite f64_add_nan_r. apply foldl_f64_add_nan.
    + by apply IH.
Qed.

(** A NaN among the first [n] components of [a] makes the distance a NaN. *)
Lemma euclidean_spec_nan (a b : list float32) n k :
  k < n → n ≤ length b → a !! k = Some S754_nan →
  euclidean_spec a b n = S754_nan.
Proof.
  intros Hk Hb Ha. unfold euclidean_spec.
  rewrite foldl_f64_add_has_nan; [done|].
  destruct (lookup_lt_is_Some_2 b k) as [y Hy]; [lia|].
  apply list_elem_of_lookup. exists k.
  rewrite lookup_zip_with, !lookup_take_lt by done.
  rewrite Ha, Hy. simpl. by rewrite sq_diff_nan_l.
Qed.

(** ** The Euclidean loop *)

Lemma euclidean_loop_spec (a b : list float32) k i sum :
  i + k ≤ length a → i + k ≤ length b →
  euclidean_loop a b k i sum
  = Some (foldl f64_add sum (zip_with sq_diff (take k (drop i a)) (take k (drop i b)))).
Proof.
  revert i sum. induction k as [|k IH]; intros i sum Ha Hb; [done|].
  destruct (lookup_lt_is_Some_2 a i) as [x Hx]; [lia|].
  destruct (lookup_lt_is_Some_2 b i) as [y Hy]; [lia|].
  simpl. rewrite Hx, Hy. simpl.
  rewrite IH by lia.
  by rewrite (drop_S a x i Hx), (drop_S b y i Hy).
Qed.

Lemma euclidean_distance_spec (a b : list float32) n buffer_a buffer_b :
  n ≤ length a → n ≤ length b →
  euclidean_distance a b n buffer_a buffer_b = Some (euclidean_spec a b n).
Proof.
  intros Ha Hb. unfold euclidean_distance.
  rewrite euclidean_loop_spec by done. done.
Qed.

(** Reduce a bind of the option monad whose first computation is known. *)
Ltac bind_step := cbn [mbind option_bind].

(** ** The minRMSD metric on the heap *)

Section MetricFacts.
Context `{G : Geometry}.

Lemma memcpy_eq p (src x : list float32) n (h : gmap nat (list float32)) :
  h !! p = Some x → n ≤ length src → n ≤ length x →
  memcpy (Some p) src n h = Some (<[p := take n src ++ drop n x]> h).
Proof.
  intros Hp Hs Hx. unfold memcpy. simpl. rewrite Hp. simpl.
  rewrite decide_True by done. done.
Qed.

Lemma center_call_eq p (x : list float32) k (h : gmap nat (list float32)) :
  h !! p = Some x → 3 * k ≤ length x →
  center_call (Some p) k h
  = Some ((inplace_center_and_trace_atom_major (take (3 * k) x) 1 k).2,
          <[p := (inplace_center_and_trace_atom_major (take (3 * k) x) 1 k).1
                 ++ drop (3 * k) x]> h).
Proof.
  intros Hp Hx. unfold center_call. simpl. rewrite Hp. simpl.
  rewrite decide_True by done. done.
Qed.

Lemma msd_call_eq p q (x y : list float32) k ta tb (h : gmap nat (list float32)) :
  h !! p = Some x → h !! q = Some y → 3 * k ≤ length x → 3 * k ≤ length y →
  msd_call k (Some p) (Some q) ta tb h
  = Some (msd_atom_major k k (take (3 * k) x) (take (3 * k) y) ta tb).
Proof.
  intros Hp Hq Hx Hy. unfold msd_call. simpl. rewrite Hp, Hq. simpl.
  rewrite decide_True by done. done.
Qed.

Lemma center_take_length (l : list float32) k :
  3 * k ≤ length l →
  length (inplace_center_and_trace_atom_major (take (3 * k) l) 1 k).1 = 3 * k.
Proof. intros Hl. rewrite inplace_center_length, length_take. lia. Qed.

Lemma scratch_after_length (src x : list float32) n :
  n ≤ length src → n ≤ length x → length (scratch_after src x n) = length x.
Proof.
  intros Hs Hx. unfold scratch_after.
  pose proof (Nat.Div0.mul_div_le n 3) as Hdiv.
  rewrite length_app, length_drop, length_app, length_take, length_drop.
  rewrite inplace_center_length, length_take. lia.
Qed.

(** One call of [minRMSD_distance] with two distinct live buffers. *)
Lemma minRMSD_distance_eq (a b x y : list float32) n p q
    (h : gmap nat (list float32)) :
  p ≠ q → h !! p = Some x → h !! q = Some y →
  n ≤ length a → n ≤ length b → n ≤ length x → n ≤ length y →
  minRMSD_distance a b n (Some p) (Some q) h
  = Some (minRMSD_value a b n,
          <[q := scratch_after b y n]> (<[p := scratch_after a x n]> h)).
Proof.
  intros Hpq Hp Hq Ha Hb Hx Hy.
  pose proof (Nat.Div0.mul_div_le n 3) as Hdiv.
  unfold minRMSD_distance.
  rewrite (memcpy_eq p a x n h) by done. bind_step.
  rewrite (memcpy_eq q b y n) by (by rewrite ?lookup_insert_ne). bind_step.
  set (xa := take n a ++ drop n x). set (yb := take n b ++ drop n y).
  assert (length xa = length x) as Hxa.
  { unfold xa. rewrite length_app, length_take, length_drop. lia. }
  assert (length yb = length y) as Hyb.
  { unfold yb. rewrite length_app, length_take, length_drop. lia. }
  assert (take (3 * (n / 3)) xa = take (3 * (n / 3)) a) as Hta.
  { unfold xa. rewrite take_app_le by (rewrite length_take; lia).
    rewrite take_take. f_equal. lia. }
  assert (take (3 * (n / 3)) yb = take (3 * (n / 3)) b) as Htb.
  { unfold yb. rewrite take_app_le by (rewrite length_take; lia).
    rewrite take_take. f_equal. lia. }
  rewrite (center_call_eq p xa) by
    (rewrite ?lookup_insert_ne, ?lookup_insert_eq by done; done || lia).
  bind_step.
  rewrite (center_call_eq q yb) by
    (rewrite ?lookup_insert_ne, ?lookup_insert_eq by done; done || lia).
  bind_step.
  erewrite msd_call_eq; cycle 1.
  - rewrite lookup_insert_ne, lookup_insert_eq by done. done.
  - rewrite lookup_insert_eq. done.
  - rewrite length_app, center_take_length by lia. lia.
  - rewrite length_app, center_take_length by lia. lia.
  - bind_step.
    assert (∀ l rest : list spec_float, 3 * (n / 3) ≤ length l →
      take (3 * (n / 3))
        ((inplace_center_and_trace_atom_major (take (3 * (n / 3)) l) 1 (n / 3)).1
         ++ rest)
      = (inplace_center_and_trace_atom_major (take (3 * (n / 3)) l) 1 (n / 3)).1)
      as Hc.
    { intros l rest Hl. rewrite take_app_le by (rewrite center_take_length; lia).
      apply take_ge. rewrite center_take_length; lia. }
    rewrite (Hc xa), (Hc yb) by lia.
    rewrite Hta, Htb. unfold minRMSD_value, scratch_after. f_equal. f_equal.
    apply map_eq. intros r. fold xa yb.
    destruct (decide (r = q)) as [->|Hrq].
    { by rewrite !lookup_insert_eq. }
    rewrite !(lookup_insert_ne _ q r) by done.
    destruct (decide (r = p)) as [->|Hrp].
    { by rewrite !lookup_insert_eq. }
    rewrite !(lookup_insert_ne _ p r) by done.
    by rewrite !lookup_insert_ne by done.
Qed.

End MetricFacts.

(** ** The loops of one thread *)

Section SerialFacts.
Context `{G : Geometry}.
Variables (m : metric_fn) (chunk centers : list float32).
Variables (N_frames N_centers dim : nat) (buffer_a buffer_b : option nat).
Hypothesis Hchunk : length chunk = N_frames * dim.
Hypothesis Hcenters : length centers = N_centers * dim.

Local Abbreviation buffers_ok := (scratch_ok m dim buffer_a buffer_b).
Local Abbreviation framed := (heap_frame buffer_a buffer_b).
Local Abbreviation result := (assigned m chunk centers N_centers dim).

Lemma heap_frame_refl h : framed h h.
Proof. by intros r _ _. Qed.

Lemma heap_frame_trans h1 h2 h3 :
  framed h1 h2 → framed h2 h3 → framed h1 h3.
Proof. intros H12 H23 r Ha Hb. rewrite H23, H12 by done. done. Qed.

Lemma frame_slice i : i < N_frames → dim ≤ length (drop (i * dim) chunk).
Proof. clear Hcenters. intros Hi. rewrite length_drop, Hchunk. nia. Qed.

Lemma center_slice j : j < N_centers → dim ≤ length (drop (j * dim) centers).
Proof. clear Hchunk. intros Hj. rewrite length_drop, Hcenters. nia. Qed.

Lemma distance_ok i j h :
  i < N_frames → j < N_centers → buffers_ok h →
  ∃ h', distance m (drop (i * dim) chunk) (drop (j * dim) centers) dim
          buffer_a buffer_b h
        = Some (dist_value m chunk centers dim i j, h')
      ∧ buffers_ok h' ∧ framed h h'.
Proof.
  intros Hi Hj Hok.
  pose proof (frame_slice i Hi) as Ha. pose proof (center_slice j Hj) as Hb.
  unfold distance, dist_value, scratch_ok in *. destruct m.
  - exists h. rewrite euclidean_distance_spec by done.
    split; [done|]. split; [done|]. apply heap_frame_refl.
  - destruct Hok as (p & q & x & y & -> & -> & Hpq & Hp & Hq & Hx & Hy).
    eexists. split; [by apply minRMSD_distance_eq|]. split.
    + exists p, q, (scratch_after (drop (i * dim) chunk) x dim),
        (scratch_after (drop (j * dim) centers) y dim).
      rewrite lookup_insert_ne, !lookup_insert_eq by done.
      rewrite !scratch_after_length by done. done.
    + intros r Hra Hrb. rewrite !lookup_insert_ne by congruence. done.
Qed.

Lemma scan_centers_ok worker i k j best s :
  i < N_frames → j + k ≤ N_centers → buffers_ok (st_heap s) →
  ∃ s', scan_centers m chunk centers dim buffer_a buffer_b worker i k j best s
        = Some (scan_pure (distances m chunk centers dim i j k) j best, s')
      ∧ st_dtraj s' = st_dtraj s
      ∧ buffers_ok (st_heap s') ∧ framed (st_heap s) (st_heap s').
Proof.
  intros Hi. revert j best s. induction k as [|k IH]; intros j best s Hjk Hok.
  - exists s. simpl. split; [done|]. split; [done|]. split; [done|].
    apply heap_frame_refl.
  - destruct (distance_ok i j (st_heap s)) as (h' & Hd & Hok' & Hfr);
      [done|lia|done|].
    cbn [scan_centers]. rewrite Hd. bind_step.
    destruct (IH (S j) (update_min (dist_value m chunk centers dim i j) j best)
                (set_heap h' (emit (EvDistance worker i j buffer_a buffer_b) s)))
      as (s' & Hs & Hdt & Hok'' & Hfr'); [lia|done|].
    exists s'. split; [by rewrite Hs|]. split; [by rewrite Hdt|].
    split; [done|]. by eapply heap_frame_trans.
Qed.

Lemma assign_frame_ok worker i s :
  i < N_frames → i < length (st_dtraj s) → buffers_ok (st_heap s) →
  ∃ s', assign_frame m chunk centers N_centers dim buffer_a buffer_b worker i s
        = Some s'
      ∧ st_dtraj s' = <[i := result i]> (st_dtraj s)
      ∧ buffers_ok (st_heap s') ∧ framed (st_heap s) (st_heap s').
Proof.
  intros Hi Hlen Hok. unfold assign_frame.
  destruct (scan_centers_ok worker i N_centers 0 (FLT_MAX, to_size_t (-1)) s)
    as (s1 & Hs & Hdt & Hok' & Hfr); [done|lia|done|].
  rewrite Hs. bind_step. unfold store_dtraj.
  rewrite decide_True by (by rewrite Hdt).
  eexists. split; [done|]. simpl. rewrite Hdt. done.
Qed.

Lemma assign_frames_ok k i s :
  i + k ≤ N_frames → i + k ≤ length (st_dtraj s) → buffers_ok (st_heap s) →
  ∃ s', assign_frames m chunk centers N_centers dim buffer_a buffer_b k i s
        = Some s'
      ∧ st_dtraj s'
        = take i (st_dtraj s) ++ (result <$> seq i k) ++ drop (i + k) (st_dtraj s)
      ∧ buffers_ok (st_heap s') ∧ framed (st_heap s) (st_heap s').
Proof.
  revert i s. induction k as [|k IH]; intros i s Hik Hlen Hok.
  - exists s. simpl. rewrite Nat.add_0_r, take_drop.
    split; [done|]. split; [done|]. split; [done|]. apply heap_frame_refl.
  - destruct (assign_frame_ok 0 i s) as (s1 & Hs1 & Hdt1 & Hok1 & Hfr1);
      [lia|lia|done|].
    cbn [assign_frames]. rewrite Hs1. bind_step.
    destruct (IH (S i) s1) as (s' & Hs & Hdt & Hok' & Hfr');
      [lia|rewrite Hdt1, length_insert; lia|done|].
    exists s'. split; [done|]. split; [|split; [done|by eapply heap_frame_trans]].
    rewrite Hdt, Hdt1.
    rewrite (take_S_r _ i (result i))
      by (apply list_lookup_insert_eq; lia).
    rewrite take_insert_ge by lia.
    rewrite drop_insert_lt by lia.
    rewrite <- app_assoc. simpl. by rewrite Nat.add_succ_r.
Qed.

End SerialFacts.

(** ** The serial call *)

Section CallFacts.
Context `{G : Geometry}.

Lemma fresh_lookup (h : gmap nat (list float32)) : h !! fresh (dom h) = None.
Proof. apply not_elem_of_dom, is_fresh. Qed.

(** Two successful allocations give two distinct live blocks of [dim]
    floats, and freeing both gives the heap back. *)
Lemma malloc_pair dim s :
  ∃ p q s1 s2,
    malloc true dim s = (Some p, s1) ∧ malloc true dim s1 = (Some q, s2)
    ∧ p ≠ q ∧ st_heap s !! p = None ∧ st_heap s !! q = None
    ∧ st_heap s2
      = <[q := replicate dim (S754_zero false)]>
          (<[p := replicate dim (S754_zero false)]> (st_heap s))
    ∧ st_dtraj s2 = st_dtraj s
    ∧ st_log s2 = st_log s ++ [EvMalloc dim (Some p); EvMalloc dim (Some q)].
Proof.
  set (p := fresh (dom (st_heap s))).
  set (h1 := <[p := replicate dim (S754_zero false)]> (st_heap s)).
  set (q := fresh (dom h1)).
  exists p, q. do 2 eexists. split; [done|]. split; [done|]. simpl. fold p h1 q.
  assert (h1 !! q = None) as Hq by apply fresh_lookup.
  assert (st_heap s !! p = None) as Hp by apply fresh_lookup.
  assert (p ≠ q) as Hpq.
  { intros Heq. unfold h1 in Hq. rewrite <- Heq, lookup_insert_eq in Hq. done. }
  repeat split; try done.
  - unfold h1 in Hq. by rewrite lookup_insert_ne in Hq.
  - by rewrite <- app_assoc.
Qed.

Lemma free_pair_heap p q (h0 h : gmap nat (list float32)) :
  h0 !! p = None → h0 !! q = None →
  (∀ r, r ≠ p → r ≠ q → h !! r = h0 !! r) →
  delete q (delete p h) = h0.
Proof.
  intros Hp Hq Hfr. apply map_eq. intros r.
  destruct (decide (r = q)) as [->|Hrq]; [by rewrite lookup_delete_eq|].
  rewrite lookup_delete_ne by done.
  destruct (decide (r = p)) as [->|Hrp]; [by rewrite lookup_delete_eq|].
  rewrite lookup_delete_ne by done. by apply Hfr.
Qed.

(** A well-formed call with a known metric succeeds, leaves the heap
    as it found it and fills [dtraj] with the index each scan ends with. *)
Lemma c_assign_ok m chunk centers N_frames N_centers dim n_threads ok_a ok_b s :
  well_formed chunk centers N_frames N_centers dim s →
  (m = MinRMSD → ok_a = true ∧ ok_b = true) →
  ∃ s', c_assign chunk centers (metric_name m) N_frames N_centers dim n_threads
          ok_a ok_b s = Some (ASSIGN_SUCCESS, s')
      ∧ st_dtraj s' = assigned m chunk centers N_centers dim <$> seq 0 N_frames
      ∧ st_heap s' = st_heap s.
Proof.
  intros (Hchunk & Hcenters & Hdt) Hok.
  unfold c_assign, c_assign_with. destruct m; cbn [metric_name].
  - change (String.eqb "euclidean" "euclidean") with true. cbv iota.
    destruct (assign_frames_ok Euclidean chunk centers N_frames N_centers dim
                None None Hchunk Hcenters N_frames 0 s)
      as (s' & Hs & Hdt' & _ & Hfr); [lia|lia|done|].
    rewrite Hs. bind_step. exists s'. split; [done|]. split.
    + rewrite Hdt', <- Hdt. simpl. by rewrite drop_all, app_nil_r.
    + apply map_eq. intros r. by apply Hfr.
  - change (String.eqb "minRMSD" "euclidean") with false.
    change (String.eqb "minRMSD" "minRMSD") with true. cbv iota.
    destruct Hok as [-> ->]; [done|].
    destruct (malloc_pair dim s)
      as (p & q & s1 & s2 & Hma & Hmb & Hpq & Hp & Hq & Hh & Hd & _).
    rewrite Hma, Hmb. cbn [is_null orb].
    destruct (assign_frames_ok MinRMSD chunk centers N_frames N_centers dim
                (Some p) (Some q) Hchunk Hcenters N_frames 0 s2)
      as (s' & Hs & Hdt' & _ & Hfr); [lia|rewrite Hd; lia| |].
    { exists p, q, (replicate dim (S754_zero false)),
        (replicate dim (S754_zero false)).
      rewrite Hh, lookup_insert_ne, !lookup_insert_eq by done.
      rewrite !length_replicate. done. }
    rewrite Hs. bind_step. eexists. split; [done|]. simpl. split.
    + rewrite Hdt', Hd, <- Hdt. simpl. by rewrite drop_all, app_nil_r.
    + apply free_pair_heap; [done..|]. intros r Hrp Hrq.
      rewrite Hfr by congruence. rewrite Hh.
      by rewrite !lookup_insert_ne by done.
Qed.

End CallFacts.

(** ** The scan over the distances of one frame *)

Lemma scan_pure_snoc ds d j best :
  scan_pure (ds ++ [d]) j best = update_min d (j + length ds) (scan_pure ds j best).
Proof.
  revert j best. induction ds as [|x ds IH]; intros j best; simpl.
  - by rewrite Nat.add_0_r.
  - rewrite IH. f_equal. lia.
Qed.

Lemma scan_pure_result ds :
  scan_result ds (scan_pure ds 0 (FLT_MAX, to_size_t (-1))).
Proof.
  induction ds as [|d ds IH] using rev_ind.
  - left. split; [|done]. intros k d Hk. by rewrite lookup_nil in Hk.
  - rewrite scan_pure_snoc. simpl.
    destruct (scan_pure ds 0 (FLT_MAX, to_size_t (-1))) as [md am].
    unfold update_min. simpl.
    assert (∀ k x, (ds ++ [d]) !! k = Some x →
                   ds !! k = Some x ∨ (k = length ds ∧ x = d)) as Hsplit.
    { intros k x Hk. apply lookup_app_Some in Hk as [Hk|[Hlen Hk]]; [by left|].
      right. apply list_lookup_singleton_Some in Hk as [Hk <-].
      split; [lia|done]. }
    destruct (f32_lt d md) eqn:Hlt.
    + right. exists (length ds). simpl.
      assert (∀ k x, ds !! k = Some x → f32_lt x md = false) as Hlow.
      { destruct IH as [[Hnone [= -> ->]]|(a & _ & _ & _ & Hlow & _)]; done. }
      assert (f32_lt d FLT_MAX = true) as Hd.
      { destruct IH as [[_ [= -> ->]]|(a & _ & _ & Hmd & _)]; [done|].
        simpl in Hmd. by eapply f32_lt_trans. }
      split; [by rewrite lookup_app_r, Nat.sub_diag by lia|].
      split; [done|]. split; [done|]. split.
      * intros k x Hk. apply Hsplit in Hk as [Hk|[_ ->]].
        -- destruct (f32_lt x d) eqn:Hxd; [|done].
           rewrite <- (Hlow k x Hk). symmetry. by eapply f32_lt_trans.
        -- apply f32_lt_irrefl.
      * intros k x Hka Hk. apply Hsplit in Hk as [Hk|[? _]]; [|lia].
        destruct (f32_eq x d) eqn:Hxd; [|done].
        rewrite <- (Hlow k x Hk). symmetry. by eapply f32_eq_lt_l.
    + destruct IH as [[Hnone [= -> ->]]|(a & Ha & Ham & Hmd & Hlow & Hfirst)].
      * left. split; [|done]. intros k x Hk.
        apply Hsplit in Hk as [Hk|[_ ->]]; [by eapply Hnone|done].
      * right. exists a. simpl in *.
        split; [by apply lookup_app_l_Some|]. split; [done|]. split; [done|].
        split.
        -- intros k x Hk. apply Hsplit in Hk as [Hk|[_ ->]]; [by eapply Hlow|done].
        -- intros k x Hka Hk. apply Hsplit in Hk as [Hk|[-> _]].
           ++ by eapply Hfirst.
           ++ apply lookup_lt_Some in Ha. lia.
Qed.

Lemma to_int32_index (a : nat) :
  (Z.of_nat a < 2 ^ 31)%Z → to_int32 (to_size_t (Z.of_nat a)) = Z.of_nat a.
Proof.
  intros Ha. unfold to_int32, to_size_t.
  rewrite (Z.mod_small (Z.of_nat a)) by lia. rewrite Z.mod_small by lia. lia.
Qed.

Lemma to_int32_initial : to_int32 (to_size_t (-1)) = (-1)%Z.
Proof. reflexivity. Qed.

(** No distance below [FLT_MAX]: the scan ends with the initial [argmin]. *)
Lemma scan_pure_none ds :
  (∀ k d, ds !! k = Some d → f32_lt d FLT_MAX = false) →
  (scan_pure ds 0 (FLT_MAX, to_size_t (-1))).2 = to_size_t (-1).
Proof.
  intros Hnone.
  destruct (scan_pure_result ds) as [[_ ->]|(a & Ha & _ & Hmd & _)]; [done|].
  by rewrite (Hnone _ _ Ha) in Hmd.
Qed.

(** Some distance below [FLT_MAX]: the scan ends with an index of the list. *)
Lemma scan_pure_some ds j d :
  ds !! j = Some d → f32_lt d FLT_MAX = true →
  ∃ a, a < length ds
     ∧ (scan_pure ds 0 (FLT_MAX, to_size_t (-1))).2 = to_size_t (Z.of_nat a).
Proof.
  intros Hj Hd.
  destruct (scan_pure_result ds) as [[Hnone _]|(a & Ha & Ham & _)].
  - by rewrite (Hnone _ _ Hj) in Hd.
  - exists a. split; [by eapply lookup_lt_Some|done].
Qed.

(** A minimal distance below [FLT_MAX] at index [j]: the scan ends with
    the first index whose distance equals it. *)
Lemma scan_pure_first_min ds j dj :
  ds !! j = Some dj → f32_lt dj FLT_MAX = true →
  (∀ k d, ds !! k = Some d → f32_lt d dj = false) →
  ∃ a da, (scan_pure ds 0 (FLT_MAX, to_size_t (-1))).2 = to_size_t (Z.of_nat a)
     ∧ a ≤ j ∧ ds !! a = Some da ∧ f32_eq da dj = true
     ∧ (∀ k d, k < a → ds !! k = Some d → f32_eq d dj = false).
Proof.
  intros Hj Hd Hmin.
  destruct (scan_pure_result ds) as [[Hnone _]|(a & Ha & Ham & Hmd & Hlow & Hfirst)].
  { by rewrite (Hnone _ _ Hj) in Hd. }
  set (da := (scan_pure ds 0 (FLT_MAX, to_size_t (-1))).1) in *.
  assert (f32_eq da dj = true) as Heq.
  { eapply f32_total; [done|done|by eapply Hmin|by eapply Hlow]. }
  exists a, da. split; [done|]. split; [|split; [done|split; [done|]]].
  - destruct (decide (a ≤ j)) as [|Hn]; [done|].
    assert (f32_eq dj da = false) as Hne by (eapply Hfirst; [|done]; lia).
    by rewrite (f32_eq_sym _ _ Heq) in Hne.
  - intros k d Hka Hk. destruct (f32_eq d dj) eqn:Hdd; [|done].
    rewrite <- (Hfirst k d Hka Hk). symmetry.
    eapply f32_eq_trans; [done|by apply f32_eq_sym].
Qed.

Section DistancesFacts.
Context `{G : Geometry}.

Lemma distances_lookup m chunk centers dim i N_centers j :
  j < N_centers →
  distances m chunk centers dim i 0 N_centers !! j
  = Some (dist_value m chunk centers dim i j).
Proof.
  intros Hj. unfold distances. rewrite list_lookup_fmap, lookup_seq_lt by done.
  done.
Qed.

Lemma distances_lookup_Some m chunk centers dim i N_centers j d :
  distances m chunk centers dim i 0 N_centers !! j = Some d →
  j < N_centers ∧ d = dist_value m chunk centers dim i j.
Proof.
  intros Hj. assert (j < N_centers) as Hlt.
  { apply lookup_lt_Some in Hj. unfold distances in Hj.
    by rewrite length_fmap, length_seq in Hj. }
  rewrite distances_lookup in Hj by done. split; [done|congruence].
Qed.

Lemma distances_length m chunk centers dim i N_centers :
  length (distances m chunk centers dim i 0 N_centers) = N_centers.
Proof. unfold distances. by rewrite length_fmap, length_seq. Qed.

(** One more centre scanned. *)
Lemma scan_pure_distances_S m chunk centers dim i j best :
  scan_pure (distances m chunk centers dim i 0 (S j)) 0 best
  = update_min (dist_value m chunk centers dim i j) j
      (scan_pure (distances m chunk centers dim i 0 j) 0 best).
Proof.
  unfold distances. rewrite seq_S, fmap_app. cbn [fmap list_fmap].
  by rewrite scan_pure_snoc, length_fmap, length_seq.
Qed.

End DistancesFacts.

(** ** The index written for each frame *)

Section EngineFacts.
Context `{G : Geometry}.

(** A successful call stores, for frame [i], what the scan of its
    distances ends with. *)
Lemma c_assign_frame m chunk centers N_frames N_centers dim n_threads s :
  well_formed chunk centers N_frames N_centers dim s →
  ∃ s', c_assign chunk centers (metric_name m) N_frames N_centers dim n_threads
          true true s = Some (ASSIGN_SUCCESS, s')
      ∧ ∀ i, i < N_frames →
          st_dtraj s' !! i
          = Some (to_int32 (scan_pure (distances m chunk centers dim i 0 N_centers)
                              0 (FLT_MAX, to_size_t (-1))).2).
Proof.
  intros Hwf.
  destruct (c_assign_ok m chunk centers N_frames N_centers dim n_threads
              true true s Hwf) as (s' & Hs & Hdt & _); [done|].
  exists s'. split; [done|]. intros i Hi.
  rewrite Hdt, list_lookup_fmap, lookup_seq_lt by done. done.
Qed.

End EngineFacts.

(** C10: a call on well-formed input with a known metric succeeds, and
    for a frame none of whose distances is strictly below FLT_MAX the
    pair (mindist, argmin) is never updated (after any number of centres
    it still has its initial value) and the slot of the frame receives
    -1, the int32 truncation of (size_t)-1, which is no index of a
    centre. Under the Euclidean metric a frame with a NaN component is
    such a frame: all its distances are NaN. *)
Theorem unreachable_frame_gets_minus_one `{G : Geometry}
    m chunk centers N_frames N_centers dim n_threads s :
  well_formed chunk centers N_frames N_centers dim s →
  ∃ s', c_assign chunk centers (metric_name m) N_frames N_centers dim n_threads
          true true s = Some (ASSIGN_SUCCESS, s')
      ∧ ∀ i, i < N_frames →
          ((∀ j, j < N_centers →
               f32_lt (dist_value m chunk centers dim i j) FLT_MAX = false) →
           (∀ k, scan_pure (take k (distances m chunk centers dim i 0 N_centers))
                   0 (FLT_MAX, to_size_t (-1)) = (FLT_MAX, to_size_t (-1)))
           ∧ st_dtraj s' !! i = Some (to_int32 (to_size_t (-1)))
           ∧ to_int32 (to_size_t (-1)) = (-1)%Z
           ∧ ¬ (0 ≤ -1 < Z.of_nat N_centers)%Z)
          ∧ (m = Euclidean →
             (∃ k, k < dim ∧ chunk !! (i * dim + k) = Some S754_nan) →
             (∀ j, j < N_centers → dist_value m chunk centers dim i j = S754_nan)
             ∧ st_dtraj s' !! i = Some (-1)%Z).
Proof.
  intros Hwf.
  destruct (c_assign_frame m chunk centers N_frames N_centers dim n_threads s Hwf)
    as (s' & Hs & Hdt).
  exists s'. split; [done|]. intros i Hi.
  assert ((∀ j, j < N_centers →
             f32_lt (dist_value m chunk centers dim i j) FLT_MAX = false) →
          ∀ k, scan_pure (take k (distances m chunk centers dim i 0 N_centers))
                 0 (FLT_MAX, to_size_t (-1)) = (FLT_MAX, to_size_t (-1))) as Hkeep.
  { intros Hnone k.
    destruct (scan_pure_result (take k (distances m chunk centers dim i 0 N_centers)))
      as [[_ ->]|(a & Ha & _ & Hmd & _)]; [done|].
    apply lookup_take_Some in Ha as [Ha _].
    apply distances_lookup_Some in Ha as [Ha Hd].
    rewrite Hd, Hnone in Hmd; done. }
  assert ((∀ j, j < N_centers →
             f32_lt (dist_value m chunk centers dim i j) FLT_MAX = false) →
          scan_pure (distances m chunk centers dim i 0 N_centers)
            0 (FLT_MAX, to_size_t (-1)) = (FLT_MAX, to_size_t (-1))) as Hend.
  { intros Hnone. pose proof (Hkeep Hnone N_centers) as Hk.
    rewrite take_ge in Hk; [done|]. by rewrite distances_length. }
  split.
  - intros Hnone. split; [by apply Hkeep|]. split; [|split; [done|lia]].
    rewrite Hdt by done. by rewrite (Hend Hnone).
  - intros -> (k & Hk & Hnan).
    destruct Hwf as (Hchunk & Hcenters & _).
    assert (∀ j, j < N_centers →
              dist_value Euclidean chunk centers dim i j = S754_nan) as Hall.
    { intros j Hj. unfold dist_value. apply (euclidean_spec_nan _ _ _ k).
      - done.
      - by eapply center_slice.
      - by rewrite lookup_drop. }
    split; [done|]. rewrite Hdt by done.
    rewrite Hend; [done|]. intros j Hj. by rewrite Hall.
Qed.

(** C10, at a concrete input: one frame with a NaN, two centres. *)
Lemma unreachable_frame_gets_minus_one_witness :
  ∃ s', c_assign (G := shift_geometry) [S754_nan; f32_of_Z 1] (vec [0; 0; 3; 4]%Z)
          "euclidean" 1 2 2 1 true true (init_state [7%Z])
        = Some (ASSIGN_SUCCESS, s')
      ∧ st_dtraj s' !! 0 = Some (-1)%Z.
Proof.
  destruct (unreachable_frame_gets_minus_one (G := shift_geometry) Euclidean
              [S754_nan; f32_of_Z 1] (vec [0; 0; 3; 4]%Z) 1 2 2 1 (init_state [7%Z]))
    as (s' & Hs & Hprop).
  - repeat split; reflexivity.
  - exists s'. split; [exact Hs|].
    destruct (Hprop 0) as [_ Hnan]; [lia|].
    apply Hnan; [reflexivity|]. exists 0. split; [lia|reflexivity].
Defined.

(** C2, amended: a call on well-formed input with a known metric and a
    number of centres that fits an [int] succeeds, and the index written
    for every frame that has some centre at a distance strictly below
    FLT_MAX is in [0, N_centers). *)
Theorem assigned_index_in_range `{G : Geometry}
    m chunk centers N_frames N_centers dim n_threads s :
  well_formed chunk centers N_frames N_centers dim s →
  (Z.of_nat N_centers < 2 ^ 31)%Z →
  ∃ s', c_assign chunk centers (metric_name m) N_frames N_centers dim n_threads
          true true s = Some (ASSIGN_SUCCESS, s')
      ∧ ∀ i, i < N_frames →
          (∃ j, j < N_centers
              ∧ f32_lt (dist_value m chunk centers dim i j) FLT_MAX = true) →
          ∃ v, st_dtraj s' !! i = Some v ∧ (0 ≤ v < Z.of_nat N_centers)%Z.
Proof.
  intros Hwf Hint.
  destruct (c_assign_frame m chunk centers N_frames N_centers dim n_threads s Hwf)
    as (s' & Hs & Hdt).
  exists s'. split; [done|]. intros i Hi (j & Hj & Hlt).
  destruct (scan_pure_some (distances m chunk centers dim i 0 N_centers) j
              (dist_value m chunk centers dim i j)) as (a & Ha & Heq);
    [by apply distances_lookup|done|].
  rewrite distances_length in Ha.
  exists (Z.of_nat a). rewrite Hdt by done. rewrite Heq, to_int32_index by lia.
  split; [done|lia].
Qed.

Lemma assigned_index_in_range_witness :
  ∃ s', c_assign (G := shift_geometry) (vec [0; 0]%Z) (vec [0; 0; 3; 4]%Z)
          "euclidean" 1 2 2 1 true true (init_state [7%Z])
        = Some (ASSIGN_SUCCESS, s')
      ∧ ∃ v, st_dtraj s' !! 0 = Some v ∧ (0 ≤ v < 2)%Z.
Proof.
  destruct (assigned_index_in_range (G := shift_geometry) Euclidean
              (vec [0; 0]%Z) (vec [0; 0; 3; 4]%Z) 1 2 2 1 (init_state [7%Z]))
    as (s' & Hs & Hprop).
  - repeat split; reflexivity.
  - reflexivity.
  - exists s'. split; [exact Hs|]. apply Hprop; [lia|].
    exists 0. split; [lia|reflexivity].
Defined.

(** C2 as stated fails: one frame [FLT_MAX], one centre [-FLT_MAX],
    Euclidean metric. The difference overflows, the distance is +inf,
    and the slot receives -1. *)
Lemma assigned_index_in_range_counterexample :
  ¬ (1 ≤ 1 → 1 ≤ 1 →
     ∀ s', c_assign (G := shift_geometry) [FLT_MAX] [neg_FLT_MAX]
             "euclidean" 1 1 1 1 true true (init_state [0%Z])
           = Some (ASSIGN_SUCCESS, s') →
           ∀ i, i < 1 → ∃ v, st_dtraj s' !! i = Some v ∧ (0 ≤ v < 1)%Z).
Proof.
  intros H. specialize (H (le_n 1) (le_n 1)). revert H.
  destruct (c_assign (G := shift_geometry) [FLT_MAX] [neg_FLT_MAX]
              "euclidean" 1 1 1 1 true true (init_state [0%Z])) as [r|] eqn:E;
    vm_compute in E; [|discriminate].
  injection E as <-. intros H.
  destruct (H _ eq_refl 0) as (v & Hv & Hr); [lia|].
  vm_compute in Hv. injection Hv as <-. lia.
Qed.

(** C9, amended: with a single centre, a call on well-formed input
    with a known metric succeeds and writes 0 for every frame whose
    distance to that centre is strictly below FLT_MAX. *)
Theorem single_center_assigns_zero `{G : Geometry}
    m chunk centers N_frames dim n_threads s :
  well_formed chunk centers N_frames 1 dim s →
  ∃ s', c_assign chunk centers (metric_name m) N_frames 1 dim n_threads
          true true s = Some (ASSIGN_SUCCESS, s')
      ∧ ∀ i, i < N_frames →
          f32_lt (dist_value m chunk centers dim i 0) FLT_MAX = true →
          st_dtraj s' !! i = Some 0%Z.
Proof.
  intros Hwf.
  destruct (c_assign_frame m chunk centers N_frames 1 dim n_threads s Hwf)
    as (s' & Hs & Hdt).
  exists s'. split; [done|]. intros i Hi Hlt.
  destruct (scan_pure_some (distances m chunk centers dim i 0 1) 0
              (dist_value m chunk centers dim i 0)) as (a & Ha & Heq);
    [apply distances_lookup; lia|done|].
  rewrite distances_length in Ha. assert (a = 0) as -> by lia.
  rewrite Hdt by done. by rewrite Heq.
Qed.

Lemma single_center_assigns_zero_witness :
  ∃ s', c_assign (G := shift_geometry) (vec [0; 0; 5; 5]%Z) (vec [3; 4]%Z)
          "euclidean" 2 1 2 1 true true (init_state [7%Z; 7%Z])
        = Some (ASSIGN_SUCCESS, s')
      ∧ st_dtraj s' !! 0 = Some 0%Z ∧ st_dtraj s' !! 1 = Some 0%Z.
Proof.
  destruct (single_center_assigns_zero (G := shift_geometry) Euclidean
              (vec [0; 0; 5; 5]%Z) (vec [3; 4]%Z) 2 2 1 (init_state [7%Z; 7%Z]))
    as (s' & Hs & Hprop).
  - repeat split; reflexivity.
  - exists s'. split; [exact Hs|].
    split; (apply Hprop; [lia|reflexivity]).
Defined.

(** C9 as stated fails: one frame [NaN], one centre [0], Euclidean
    metric. The distance is a NaN and the slot receives -1, not 0. *)
Lemma single_center_assigns_zero_counterexample :
  ¬ (∀ s', c_assign (G := shift_geometry) [S754_nan] (vec [0]%Z)
             "euclidean" 1 1 1 1 true true (init_state [0%Z])
           = Some (ASSIGN_SUCCESS, s') →
           ∀ i, i < 1 → st_dtraj s' !! i = Some 0%Z).
Proof.
  intros H. revert H.
  destruct (c_assign (G := shift_geometry) [S754_nan] (vec [0]%Z)
              "euclidean" 1 1 1 1 true true (init_state [0%Z])) as [r|] eqn:E;
    vm_compute in E; [|discriminate].
  injection E as <-. intros H.
  specialize (H _ eq_refl 0 (le_n 1)). vm_compute in H. discriminate.
Qed.

(** C1, amended: the best index changes only on a strictly smaller
    distance; a call on well-formed input with a known metric and a
    number of centres that fits an [int] succeeds, and for a frame whose
    minimal distance is strictly below FLT_MAX the slot receives the
    lowest index among the centres at that distance. For dim=1,
    frames=[[0.0]], centers=[[1.0],[-1.0]] and the Euclidean metric both
    distances are 1.0 and the output is [0]. *)
Theorem lowest_index_wins_ties `{G : Geometry} :
  (∀ d j best, f32_lt d best.1 = false → update_min d j best = best)
  ∧ (∀ m chunk centers N_frames N_centers dim n_threads s,
       well_formed chunk centers N_frames N_centers dim s →
       (Z.of_nat N_centers < 2 ^ 31)%Z →
       ∃ s', c_assign chunk centers (metric_name m) N_frames N_centers dim
               n_threads true true s = Some (ASSIGN_SUCCESS, s')
           ∧ ∀ i j, i < N_frames → j < N_centers →
               f32_lt (dist_value m chunk centers dim i j) FLT_MAX = true →
               (∀ k, k < N_centers →
                  f32_lt (dist_value m chunk centers dim i k)
                    (dist_value m chunk centers dim i j) = false) →
               ∃ j0, st_dtraj s' !! i = Some (Z.of_nat j0) ∧ j0 ≤ j
                   ∧ f32_eq (dist_value m chunk centers dim i j0)
                       (dist_value m chunk centers dim i j) = true
                   ∧ ∀ k, k < j0 →
                       f32_eq (dist_value m chunk centers dim i k)
                         (dist_value m chunk centers dim i j) = false)
  ∧ (dist_value Euclidean (vec [0]%Z) (vec [1; -1]%Z) 1 0 0 = f32_of_Z 1
     ∧ dist_value Euclidean (vec [0]%Z) (vec [1; -1]%Z) 1 0 1 = f32_of_Z 1
     ∧ ∀ n_threads v,
         ∃ s', c_assign (vec [0]%Z) (vec [1; -1]%Z) "euclidean" 1 2 1 n_threads
                 true true (init_state [v]) = Some (ASSIGN_SUCCESS, s')
             ∧ st_dtraj s' = [0%Z]).
Proof.
  split; [|split].
  - intros d j best Hlt. unfold update_min. by rewrite Hlt.
  - intros m chunk centers N_frames N_centers dim n_threads s Hwf Hint.
    destruct (c_assign_frame m chunk centers N_frames N_centers dim n_threads s Hwf)
      as (s' & Hs & Hdt).
    exists s'. split; [done|]. intros i j Hi Hj Hlt Hmin.
    destruct (scan_pure_first_min (distances m chunk centers dim i 0 N_centers) j
                (dist_value m chunk centers dim i j))
      as (a & da & Heq & Haj & Ha & Hda & Hfirst).
    { by apply distances_lookup. }
    { done. }
    { intros k d Hk. apply distances_lookup_Some in Hk as [Hk ->]. by apply Hmin. }
    apply distances_lookup_Some in Ha as [Ha ->].
    exists a. rewrite Hdt by done. rewrite Heq, to_int32_index by lia.
    split; [done|]. split; [done|]. split; [done|].
    intros k Hk. eapply (Hfirst k); [done|]. apply distances_lookup. lia.
  - split; [reflexivity|]. split; [reflexivity|].
    intros n_threads v. eexists. split; reflexivity.
Qed.

Lemma lowest_index_wins_ties_witness :
  ∃ s', c_assign (G := shift_geometry) (vec [0]%Z) (vec [1; -1]%Z)
          "euclidean" 1 2 1 1 true true (init_state [7%Z])
        = Some (ASSIGN_SUCCESS, s')
      ∧ ∃ j0, st_dtraj s' !! 0 = Some (Z.of_nat j0) ∧ j0 ≤ 1.
Proof.
  destruct (proj1 (proj2 (lowest_index_wins_ties (G := shift_geometry)))
              Euclidean (vec [0]%Z) (vec [1; -1]%Z) 1 2 1 1 (init_state [7%Z]))
    as (s' & Hs & Hprop).
  - repeat split; reflexivity.
  - reflexivity.
  - exists s'. split; [exact Hs|].
    destruct (Hprop 0 1) as (j0 & Hj0 & Hle & _).
    + lia.
    + lia.
    + reflexivity.
    + intros k Hk. destruct k as [|[|k]]; [reflexivity|reflexivity|lia].
    + exists j0. split; [exact Hj0|exact Hle].
Defined.

(** C1 as stated fails: one frame [FLT_MAX] and two centres
    [-FLT_MAX], Euclidean metric. Both distances are +inf, equal and
    minimal, and the slot receives -1 and not the lower index 0. *)
Lemma lowest_index_wins_ties_counterexample :
  ¬ (f32_eq (overflow_dist 0) (overflow_dist 1) = true →
     (∀ k, k < 2 → f32_lt (overflow_dist k) (overflow_dist 0) = false) →
     ∀ s', c_assign (G := shift_geometry) [FLT_MAX] [neg_FLT_MAX; neg_FLT_MAX]
             "euclidean" 1 2 1 1 true true (init_state [0%Z])
           = Some (ASSIGN_SUCCESS, s') →
           st_dtraj s' !! 0 = Some 0%Z).
Proof.
  intros H.
  assert (∀ k, k < 2 → f32_lt (overflow_dist k) (overflow_dist 0) = false) as Hmin.
  { intros k Hk. destruct k as [|[|k]]; [reflexivity|reflexivity|lia]. }
  specialize (H eq_refl Hmin). revert H.
  destruct (c_assign (G := shift_geometry) [FLT_MAX] [neg_FLT_MAX; neg_FLT_MAX]
              "euclidean" 1 2 1 1 true true (init_state [0%Z])) as [r|] eqn:E;
    vm_compute in E; [|discriminate].
  injection E as <-. intros H.
  specialize (H _ eq_refl). vm_compute in H. discriminate.
Qed.

(** C5: for vectors with at least [n] components the Euclidean metric
    returns the square root, narrowed to float, of the sum accumulated in
    double precision of the squared differences of the components. For
    the frame [0,0] and the centres [0,0] and [3,4] the distances are 0
    and 5 and the assigned index is 0. *)
Theorem euclidean_distance_root_of_squares :
  (∀ (a b : list float32) n buffer_a buffer_b,
     n ≤ length a → n ≤ length b →
     euclidean_distance a b n buffer_a buffer_b = Some (euclidean_spec a b n))
  ∧ euclidean_distance (vec [0; 0]%Z) (vec [0; 0]%Z) 2 None None
    = Some (f32_of_Z 0)
  ∧ euclidean_distance (vec [0; 0]%Z) (vec [3; 4]%Z) 2 None None
    = Some (f32_of_Z 5)
  ∧ (∀ (G : Geometry) n_threads v,
       ∃ s', c_assign (vec [0; 0]%Z) (vec [0; 0; 3; 4]%Z) "euclidean" 1 2 2
               n_threads true true (init_state [v]) = Some (ASSIGN_SUCCESS, s')
           ∧ st_dtraj s' = [0%Z]).
Proof.
  split; [|split; [|split]].
  - intros a b n buffer_a buffer_b Ha Hb. by apply euclidean_distance_spec.
  - reflexivity.
  - reflexivity.
  - intros G n_threads v. eexists. split; reflexivity.
Qed.

Lemma euclidean_distance_root_of_squares_witness :
  euclidean_distance (vec [1; 2; 3]%Z) (vec [3; 5; 9]%Z) 3 None None
  = Some (f32_of_Z 7).
Proof.
  rewrite (proj1 euclidean_distance_root_of_squares
             (vec [1; 2; 3]%Z) (vec [3; 5; 9]%Z) 3 None None).
  - reflexivity.
  - simpl. lia.
  - simpl. lia.
Defined.

(** C6: for [n] a multiple of 3, vectors with at least [n] components
    and two distinct scratch blocks of at least [n] floats, the call
    returns the square root (taken in double precision and narrowed to
    [float]) of the minimal MSD the library gives for the centred copies
    and their traces; the first [n] floats of each scratch block hold the
    centred copy and no other block changes (the inputs [a] and [b] are
    only read). *)
Theorem minRMSD_distance_on_copies `{G : Geometry}
    (a b x y : list float32) n p q (h : gmap nat (list float32)) :
  n mod 3 = 0 → p ≠ q → h !! p = Some x → h !! q = Some y →
  n ≤ length a → n ≤ length b → n ≤ length x → n ≤ length y →
  minRMSD_distance a b n (Some p) (Some q) h
  = Some (f32_of_f64 (f64_sqrt (f64_of_f32 (minRMSD_msd a b n))),
          <[q := (inplace_center_and_trace_atom_major (take n b) 1 (n / 3)).1
                 ++ drop n y]>
            (<[p := (inplace_center_and_trace_atom_major (take n a) 1 (n / 3)).1
                    ++ drop n x]> h)).
Proof.
  intros Hmod Hpq Hp Hq Ha Hb Hx Hy.
  assert (3 * (n / 3) = n) as H3.
  { pose proof (Nat.div_mod_eq n 3). lia. }
  rewrite (minRMSD_distance_eq a b x y n p q h) by done.
  unfold minRMSD_value, minRMSD_msd, sqrt_of_msd, scratch_after. rewrite !H3.
  rewrite !drop_app_length' by (rewrite length_take; lia). done.
Qed.

(** Two points 2 apart against two points 6 apart: the centred copies
    are (-1,0,0),(1,0,0) and (-3,0,0),(3,0,0), the library used for
    the examples gives the MSD 4, and the call returns 2. *)
Lemma minRMSD_distance_on_copies_witness :
  minRMSD_msd (G := shift_geometry)
    (vec [0; 0; 0; 2; 0; 0]%Z) (vec [0; 0; 0; 6; 0; 0]%Z) 6 = f32_of_Z 4
  ∧ minRMSD_distance (G := shift_geometry)
      (vec [0; 0; 0; 2; 0; 0]%Z) (vec [0; 0; 0; 6; 0; 0]%Z) 6 (Some 0) (Some 1)
      (<[1 := vec [9; 9; 9; 9; 9; 9; 9]%Z]> (<[0 := vec [8; 8; 8; 8; 8; 8]%Z]> ∅))
    = Some (f32_of_Z 2,
            <[1 := vec [-3; 0; 0; 3; 0; 0; 9]%Z]>
              (<[0 := vec [-1; 0; 0; 1; 0; 0]%Z]> ∅)).
Proof.
  split; [vm_compute; reflexivity|].
  rewrite (minRMSD_distance_on_copies (G := shift_geometry)
             (vec [0; 0; 0; 2; 0; 0]%Z) (vec [0; 0; 0; 6; 0; 0]%Z)
             (vec [8; 8; 8; 8; 8; 8]%Z) (vec [9; 9; 9; 9; 9; 9; 9]%Z) 6 0 1).
  - vm_compute. reflexivity.
  - reflexivity.
  - discriminate.
  - reflexivity.
  - reflexivity.
  - simpl. lia.
  - simpl. lia.
  - simpl. lia.
  - simpl. lia.
Defined.

(** ** Failures *)

Section FailureFacts.
Context `{G : Geometry}.

Lemma c_assign_with_unknown region metric dim ok_a ok_b s :
  metric ≠ "euclidean" → metric ≠ "minRMSD" →
  c_assign_with region metric dim ok_a ok_b s
  = Some (ASSIGN_ERR_INVALID_METRIC, s).
Proof.
  intros H1 H2. unfold c_assign_with.
  apply String.eqb_neq in H1. apply String.eqb_neq in H2.
  by rewrite H1, H2.
Qed.

(** Go through a short list of events given in full. *)
Ltac alloc_events :=
  intros;
  repeat match goal with
         | H : _ ∈ [] |- _ => by apply elem_of_nil in H
         | H : _ ∈ _ :: _ |- _ => apply elem_of_cons in H as [H|H]
         | H : EvMalloc _ _ = EvMalloc _ _ |- _ => injection H as ? ?; subst
         | H : ?e = _ |- is_alloc_event ?e => rewrite H; exact I
         end;
  try discriminate; try (by repeat constructor).

Lemma c_assign_with_no_memory region dim ok_a ok_b s :
  ok_a = false ∨ ok_b = false →
  ∃ s' l, c_assign_with region "minRMSD" dim ok_a ok_b s
          = Some (ASSIGN_ERR_NO_MEMORY, s')
        ∧ st_dtraj s' = st_dtraj s ∧ st_heap s' = st_heap s
        ∧ st_log s' = st_log s ++ l
        ∧ (∀ e, e ∈ l → is_alloc_event e)
        ∧ (∀ n p, EvMalloc n (Some p) ∈ l → EvFree p ∈ l).
Proof.
  intros Hfail. unfold c_assign_with.
  change (String.eqb "minRMSD" "euclidean") with false.
  change (String.eqb "minRMSD" "minRMSD") with true. cbv iota.
  assert (∀ h : gmap nat (list float32),
            delete (fresh (dom h)) (<[fresh (dom h) := replicate dim (S754_zero false)]> h)
            = h) as Hdel.
  { intros h. apply delete_insert_id, fresh_lookup. }
  destruct ok_a, ok_b; [by destruct Hfail|..]; simpl.
  - eexists _, [EvMalloc dim (Some _); EvMalloc dim None; EvFree _].
    split; [done|]. simpl. rewrite Hdel, <- !app_assoc. simpl.
    split; [done|]. split; [done|]. split; [done|]. split; alloc_events.
  - eexists _, [EvMalloc dim None; EvMalloc dim (Some _); EvFree _].
    split; [done|]. simpl. rewrite Hdel, <- !app_assoc. simpl.
    split; [done|]. split; [done|]. split; [done|]. split; alloc_events.
  - eexists _, [EvMalloc dim None; EvMalloc dim None].
    split; [done|]. simpl. rewrite <- !app_assoc. simpl.
    split; [done|]. split; [done|]. split; [done|]. split; alloc_events.
Qed.

End FailureFacts.

(** C7: a metric name other than "euclidean" and "minRMSD" (compared
    case-sensitively) makes the call return ASSIGN_ERR_INVALID_METRIC
    with the state it was given: the output buffer, the heap and the
    record of events are unchanged, so nothing was allocated, no distance
    was evaluated and no slot written. This holds of the serial build
    and of the OpenMP build with any number of workers and interleaving. *)
Theorem unknown_metric_fails_untouched `{G : Geometry}
    chunk centers metric N_frames N_centers dim n_threads sched ok_a ok_b s :
  metric ≠ "euclidean" → metric ≠ "minRMSD" →
  c_assign chunk centers metric N_frames N_centers dim n_threads ok_a ok_b s
  = Some (ASSIGN_ERR_INVALID_METRIC, s)
  ∧ c_assign_omp chunk centers metric N_frames N_centers dim n_threads sched
      ok_a ok_b s
    = Some (ASSIGN_ERR_INVALID_METRIC, s).
Proof.
  intros H1 H2. split; by apply c_assign_with_unknown.
Qed.

Lemma unknown_metric_fails_untouched_witness :
  c_assign (G := shift_geometry) (vec [0; 0]%Z) (vec [0; 0; 3; 4]%Z) "Euclidean"
    1 2 2 8 true true (init_state [7%Z])
  = Some (ASSIGN_ERR_INVALID_METRIC, init_state [7%Z])
  ∧ c_assign_omp (G := shift_geometry) (vec [0; 0]%Z) (vec [0; 0; 3; 4]%Z)
      "Euclidean" 1 2 2 8 [0; 3; 1] true true (init_state [7%Z])
    = Some (ASSIGN_ERR_INVALID_METRIC, init_state [7%Z]).
Proof.
  apply (unknown_metric_fails_untouched (G := shift_geometry)); discriminate.
Defined.

(** C8: when one of the two allocations of the minRMSD metric fails the
    call returns ASSIGN_ERR_NO_MEMORY; the output buffer is as it was,
    the heap is as it was, and the events of the call are allocations and
    releases only (no distance evaluated, no slot written), every block
    that was allocated being released. This holds of the serial build
    and of the OpenMP build. *)
Theorem allocation_failure_releases_scratch `{G : Geometry}
    chunk centers N_frames N_centers dim n_threads sched ok_a ok_b s :
  ok_a = false ∨ ok_b = false →
  (∃ s' l, c_assign chunk centers "minRMSD" N_frames N_centers dim n_threads
             ok_a ok_b s = Some (ASSIGN_ERR_NO_MEMORY, s')
         ∧ st_dtraj s' = st_dtraj s ∧ st_heap s' = st_heap s
         ∧ st_log s' = st_log s ++ l
         ∧ (∀ e, e ∈ l → is_alloc_event e)
         ∧ (∀ n p, EvMalloc n (Some p) ∈ l → EvFree p ∈ l))
  ∧ (∃ s' l, c_assign_omp chunk centers "minRMSD" N_frames N_centers dim
               n_threads sched ok_a ok_b s = Some (ASSIGN_ERR_NO_MEMORY, s')
           ∧ st_dtraj s' = st_dtraj s ∧ st_heap s' = st_heap s
           ∧ st_log s' = st_log s ++ l
           ∧ (∀ e, e ∈ l → is_alloc_event e)
           ∧ (∀ n p, EvMalloc n (Some p) ∈ l → EvFree p ∈ l)).
Proof.
  intros Hfail. split; by apply c_assign_with_no_memory.
Qed.

Lemma allocation_failure_releases_scratch_witness :
  ∃ s' l, c_assign (G := shift_geometry) (vec [0; 0; 0]%Z) (vec [1; 1; 1]%Z)
            "minRMSD" 1 1 3 1 true false (init_state [7%Z])
          = Some (ASSIGN_ERR_NO_MEMORY, s')
        ∧ st_dtraj s' = [7%Z] ∧ st_heap s' = ∅ ∧ st_log s' = [] ++ l
        ∧ (∀ e, e ∈ l → is_alloc_event e)
        ∧ (∀ n p, EvMalloc n (Some p) ∈ l → EvFree p ∈ l).
Proof.
  apply (proj1 (allocation_failure_releases_scratch (G := shift_geometry)
                  (vec [0; 0; 0]%Z) (vec [1; 1; 1]%Z) 1 1 3 1 [] true false
                  (init_state [7%Z]) (or_intror eq_refl))).
Defined.

(** ** The workers under the Euclidean metric *)

Lemma frames_of_lt n_threads N_frames id i :
  i ∈ frames_of n_threads N_frames id → i < N_frames.
Proof.
  unfold frames_of. intros Hin. apply list_elem_of_filter in Hin as [_ Hin].
  apply elem_of_seq in Hin. lia.
Qed.

Lemma frames_of_owner n_threads N_frames i :
  i < N_frames → i ∈ frames_of n_threads N_frames ((i / 10) mod n_threads).
Proof.
  intros Hi. unfold frames_of. apply list_elem_of_filter. split; [done|].
  apply elem_of_seq. lia.
Qed.

Lemma frames_of_length n_threads N_frames id :
  length (frames_of n_threads N_frames id) ≤ N_frames.
Proof.
  unfold frames_of. etrans; [apply length_filter|]. by rewrite length_seq.
Qed.

Lemma omp_run_app `{G : Geometry} m chunk centers N_centers dim buffer_a buffer_b
    l1 l2 ps :
  omp_run m chunk centers N_centers dim buffer_a buffer_b (l1 ++ l2) ps
  = omp_run m chunk centers N_centers dim buffer_a buffer_b l1 ps
    ≫= omp_run m chunk centers N_centers dim buffer_a buffer_b l2.
Proof.
  revert ps. induction l1 as [|id l1 IH]; intros ps; simpl; [done|].
  destruct (omp_step _ _ _ _ _ _ _ _ _) as [ps'|]; simpl; [apply IH|done].
Qed.

(** With a team of at least one thread the assertion on its size
    holds, and the region is the run of the workers. *)
Lemma omp_get_num_threads_granted n_threads :
  omp_get_num_threads n_threads = n_threads ↔ 0 < n_threads.
Proof. unfold omp_get_num_threads. lia. Qed.

Lemma omp_region_team `{G : Geometry} chunk centers N_frames N_centers dim
    n_threads sched m buffer_a buffer_b s :
  0 < n_threads →
  omp_region chunk centers N_frames N_centers dim n_threads sched m
    buffer_a buffer_b s
  = ps ← omp_run m chunk centers N_centers dim buffer_a buffer_b
           (sched ++ omp_drain n_threads N_frames N_centers)
           (init_worker n_threads N_frames <$> seq 0 n_threads, s);
    Some ps.2.
Proof.
  intros Hn. unfold omp_region.
  by rewrite decide_True by by apply omp_get_num_threads_granted.
Qed.


Section OmpEuclidean.
Context `{G : Geometry}.
Variables (chunk centers : list float32).
Variables (N_frames N_centers dim n_threads : nat).
Variables (buffer_a buffer_b : option nat).
Hypothesis Hchunk : length chunk = N_frames * dim.
Hypothesis Hcenters : length centers = N_centers * dim.

Local Abbreviation worker_ok :=
  (worker_inv chunk centers N_frames N_centers dim n_threads).
Local Abbreviation team_ok :=
  (team_inv chunk centers N_frames N_centers dim n_threads).
Local Abbreviation to_run := (steps_left N_centers).

Lemma worker_step_inv id w s :
  length (st_dtraj s) = N_frames → worker_ok id w (st_dtraj s) →
  ∃ w' s', worker_step Euclidean chunk centers N_centers dim buffer_a buffer_b
             id w s = Some (w', s')
         ∧ worker_ok id w' (st_dtraj s')
         ∧ to_run w' = pred (to_run w)
         ∧ st_heap s' = st_heap s
         ∧ (st_dtraj s' = st_dtraj s
            ∨ ∃ i, i < N_frames
                 ∧ st_dtraj s'
                   = <[i := assigned Euclidean chunk centers N_centers dim i]>
                       (st_dtraj s)).
Proof.
  intros Hlen (finished & cur & Hfr & Hfin & Hpc).
  destruct w as [todo c i j best ta tb]. unfold worker_step, steps_left.
  simpl in *. destruct c; try done.
  - (* at the head of the loop over the frames *)
    subst cur. destruct todo as [|i' rest].
    + eexists _, s. split; [done|]. split; [|by auto].
      exists finished, []. simpl. by auto.
    + eexists _, s. split; [done|]. simpl. split; [|split; [lia|by auto]].
      exists finished, [i']. simpl. split; [done|]. split; [done|].
      split; [done|]. split; [lia|done].
  - (* at the head of the loop over the centres *)
    destruct Hpc as (-> & Hj & Hbest).
    assert (i < N_frames) as Hi.
    { apply (frames_of_lt n_threads N_frames id). rewrite Hfr. set_solver. }
    destruct (decide (j < N_centers)) as [Hlt|Hge].
    + rewrite euclidean_distance_spec
        by (by eapply frame_slice || by eapply center_slice).
      bind_step. eexists _, _. split; [done|]. simpl.
      split; [|split; [lia|by auto]].
      exists finished, [i].
      cbn [w_todo w_pc w_i w_j w_best next_center app].
      split; [done|]. split; [done|].
      split; [done|]. split; [lia|].
      by rewrite scan_pure_distances_S, Hbest.
    + assert (j = N_centers) as -> by lia.
      unfold store_dtraj. rewrite decide_True by lia. bind_step.
      eexists _, _. split; [done|]. simpl.
      assert (to_int32 best.2 = assigned Euclidean chunk centers N_centers dim i)
        as Hres by (by rewrite Hbest).
      rewrite Hres. split; [|split; [lia|split; [done|]]].
      * exists (finished ++ [i]), []. simpl. rewrite <- app_assoc.
        split; [done|]. split; [|done].
        intros x Hx. apply elem_of_app in Hx as [Hx|Hx].
        -- destruct (decide (x = i)) as [->|Hne].
           ++ apply list_lookup_insert_eq. lia.
           ++ rewrite list_lookup_insert_ne by done. by apply Hfin.
        -- apply list_elem_of_singleton in Hx as ->.
           apply list_lookup_insert_eq. lia.
      * right. by exists i.
  - (* finished *)
    destruct Hpc as [-> ->]. eexists _, s. split; [done|]. split; [|by auto].
    exists finished, []. by auto.
Qed.

Lemma worker_inv_insert id w dtraj i :
  i < length dtraj → worker_ok id w dtraj →
  worker_ok id w (<[i := assigned Euclidean chunk centers N_centers dim i]> dtraj).
Proof.
  intros Hi (finished & cur & Hfr & Hfin & Hpc).
  exists finished, cur. split; [done|]. split; [|done].
  intros x Hx. destruct (decide (x = i)) as [->|Hne].
  - by apply list_lookup_insert_eq.
  - rewrite list_lookup_insert_ne by done. by apply Hfin.
Qed.

(** A turn keeps the invariant, leaves the other workers alone and
    brings the worker that took it one statement closer to its end. *)
Lemma omp_step_inv id ps :
  team_ok ps →
  ∃ ps', omp_step Euclidean chunk centers N_centers dim buffer_a buffer_b id ps
         = Some ps'
       ∧ team_ok ps' ∧ length ps'.1 = length ps.1
       ∧ st_heap ps'.2 = st_heap ps.2
       ∧ (∀ id', id' ≠ id → ps'.1 !! id' = ps.1 !! id')
       ∧ (∀ w, ps.1 !! id = Some w →
            ∃ w', ps'.1 !! id = Some w' ∧ to_run w' = pred (to_run w)).
Proof.
  destruct ps as [ws s]. intros [Hlen Hinv]. unfold omp_step. simpl in *.
  destruct (ws !! id) as [w|] eqn:Hw.
  - destruct (worker_step_inv id w s Hlen (Hinv id w Hw))
      as (w' & s' & Hstep & Hw' & Hsteps & Hheap & Hdt).
    rewrite Hstep. bind_step. eexists. split; [done|]. unfold team_inv. simpl.
    assert (id < length ws) as Hid by (by eapply lookup_lt_Some).
    split; [|split; [by rewrite length_insert|split; [done|split]]].
    + split.
      * destruct Hdt as [->|(i & Hi & ->)]; [done|]. by rewrite length_insert.
      * intros id' w0 Hw0. destruct (decide (id' = id)) as [->|Hne].
        -- rewrite list_lookup_insert_eq in Hw0 by done. by injection Hw0 as <-.
        -- rewrite list_lookup_insert_ne in Hw0 by done.
           destruct Hdt as [->|(i & Hi & ->)]; [by apply Hinv|].
           apply worker_inv_insert; [lia|by apply Hinv].
    + intros id' Hne. by rewrite list_lookup_insert_ne.
    + intros w0 [= <-]. exists w'. by rewrite list_lookup_insert_eq.
  - exists (ws, s). split; [done|]. split; [done|]. split; [done|].
    split; [done|]. split; [done|]. intros w0 Hw0. done.
Qed.

(** Any interleaving keeps the invariant and lets no worker fall back. *)
Lemma omp_run_inv sched ps :
  team_ok ps →
  ∃ ps', omp_run Euclidean chunk centers N_centers dim buffer_a buffer_b sched ps
         = Some ps'
       ∧ team_ok ps' ∧ length ps'.1 = length ps.1
       ∧ st_heap ps'.2 = st_heap ps.2
       ∧ (∀ id w, ps.1 !! id = Some w →
            ∃ w', ps'.1 !! id = Some w' ∧ to_run w' ≤ to_run w).
Proof.
  revert ps. induction sched as [|id sched IH]; intros ps Hinv.
  - exists ps. split; [done|]. split; [done|]. split; [done|]. split; [done|].
    intros id w Hw. by exists w.
  - destruct (omp_step_inv id ps Hinv)
      as (ps1 & Hstep & Hinv1 & Hlen1 & Hheap1 & Hother & Hown).
    destruct (IH ps1 Hinv1) as (ps' & Hrun & Hinv' & Hlen' & Hheap' & Hmono).
    exists ps'. simpl. rewrite Hstep. bind_step.
    split; [done|]. split; [done|]. split; [congruence|]. split; [congruence|].
    intros id' w Hw. destruct (decide (id' = id)) as [->|Hne].
    + destruct (Hown w Hw) as (w1 & Hw1 & Hs1).
      destruct (Hmono id w1 Hw1) as (w' & Hw' & Hs').
      exists w'. split; [done|]. lia.
    + apply Hmono. by rewrite Hother.
Qed.

(** [k] turns in a row bring a worker [k] statements closer to its end. *)
Lemma omp_run_replicate k id ps :
  team_ok ps →
  ∃ ps', omp_run Euclidean chunk centers N_centers dim buffer_a buffer_b
           (replicate k id) ps = Some ps'
       ∧ team_ok ps'
       ∧ (∀ w, ps.1 !! id = Some w →
            ∃ w', ps'.1 !! id = Some w' ∧ to_run w' ≤ to_run w - k).
Proof.
  revert ps. induction k as [|k IH]; intros ps Hinv.
  - exists ps. split; [done|]. split; [done|]. intros w Hw. exists w.
    split; [done|lia].
  - destruct (omp_step_inv id ps Hinv)
      as (ps1 & Hstep & Hinv1 & _ & _ & _ & Hown).
    destruct (IH ps1 Hinv1) as (ps' & Hrun & Hinv' & Hk).
    exists ps'. simpl. rewrite Hstep. bind_step.
    split; [done|]. split; [done|]. intros w Hw.
    destruct (Hown w Hw) as (w1 & Hw1 & Hs1).
    destruct (Hk w1 Hw1) as (w' & Hw' & Hs').
    exists w'. split; [done|]. lia.
Qed.

Lemma steps_left_bound id w dtraj :
  worker_ok id w dtraj → to_run w ≤ omp_bound N_frames N_centers.
Proof.
  intros (finished & cur & Hfr & _ & Hpc).
  pose proof (frames_of_length n_threads N_frames id) as Hlen.
  rewrite Hfr, !length_app in Hlen. unfold steps_left, omp_bound.
  destruct (w_pc w); try lia.
  - subst cur. simpl in Hlen. nia.
  - destruct Hpc as (-> & Hj & _). simpl in Hlen. nia.
Qed.

(** The barrier: after it every worker of [ids] is at its end. *)
Lemma omp_run_drain ids ps :
  team_ok ps →
  ∃ ps', omp_run Euclidean chunk centers N_centers dim buffer_a buffer_b
           (id ← ids; replicate (omp_bound N_frames N_centers) id) ps = Some ps'
       ∧ team_ok ps' ∧ length ps'.1 = length ps.1
       ∧ st_heap ps'.2 = st_heap ps.2
       ∧ (∀ id w, id ∈ ids → ps'.1 !! id = Some w → to_run w = 0).
Proof.
  revert ps. induction ids as [|id ids IH]; intros ps Hinv.
  - exists ps. split; [done|]. split; [done|]. split; [done|]. split; [done|].
    intros id w Hin. by apply elem_of_nil in Hin.
  - cbn [mbind list_bind]. rewrite omp_run_app.
    destruct (omp_run_replicate (omp_bound N_frames N_centers) id ps Hinv)
      as (ps1 & Hrun1 & Hinv1 & Hown).
    destruct (omp_run_inv (replicate (omp_bound N_frames N_centers) id) ps Hinv)
      as (ps1' & Hrun1' & _ & Hlen1 & Hheap1 & _).
    rewrite Hrun1 in Hrun1'. injection Hrun1' as <-.
    destruct (IH ps1 Hinv1) as (ps' & Hrun & Hinv' & Hlen' & Hheap' & Hend).
    destruct (omp_run_inv
                (id0 ← ids; replicate (omp_bound N_frames N_centers) id0) ps1 Hinv1)
      as (ps'' & Hrun' & _ & _ & _ & Hmono).
    rewrite Hrun in Hrun'. injection Hrun' as <-.
    exists ps'. rewrite Hrun1. bind_step.
    split; [done|]. split; [done|]. split; [congruence|]. split; [congruence|].
    intros id' w Hin Hw. apply elem_of_cons in Hin as [->|Hin]; [|by eapply Hend].
    assert (is_Some (ps.1 !! id)) as [w0 Hw0].
    { apply lookup_lt_is_Some. rewrite <- Hlen1, <- Hlen'. by eapply lookup_lt_Some. }
    destruct (Hown w0 Hw0) as (w1 & Hw1 & Hs1).
    destruct (Hmono id w1 Hw1) as (w' & Hw' & Hs').
    rewrite Hw in Hw'. injection Hw' as <-.
    pose proof (steps_left_bound id w0 _ (proj2 Hinv id w0 Hw0)). lia.
Qed.

(** Under the Euclidean metric the region, whatever the number of
    workers and their interleaving, fills [dtraj] as the serial loop
    does. *)
Lemma omp_region_euclidean sched s :
  0 < n_threads → length (st_dtraj s) = N_frames →
  ∃ s', omp_region chunk centers N_frames N_centers dim n_threads sched
          Euclidean buffer_a buffer_b s = Some s'
      ∧ st_dtraj s' = assigned Euclidean chunk centers N_centers dim <$> seq 0 N_frames
      ∧ st_heap s' = st_heap s.
Proof.
  intros Hn Hlen. rewrite omp_region_team by done.
  unfold omp_drain. rewrite omp_run_app.
  set (ps0 := (init_worker n_threads N_frames <$> seq 0 n_threads, s)).
  assert (team_ok ps0) as Hinv0.
  { split; [done|]. intros id w Hw. unfold ps0 in Hw. simpl in Hw.
    apply list_lookup_fmap_Some in Hw as (id' & -> & Hid).
    apply lookup_seq in Hid as [-> _].
    exists [], []. simpl. split; [done|]. split; [|done].
    intros i Hin. by apply elem_of_nil in Hin. }
  destruct (omp_run_inv sched ps0 Hinv0) as (ps1 & Hrun1 & Hinv1 & Hlen1 & Hheap1 & _).
  destruct (omp_run_drain (seq 0 n_threads) ps1 Hinv1)
    as (ps' & Hrun & [Hlen' Hinv'] & Hws & Hheap' & Hend).
  rewrite Hrun1. bind_step. rewrite Hrun. bind_step.
  eexists. split; [done|]. split; [|by rewrite Hheap', Hheap1].
  apply list_eq. intros i.
  destruct (decide (i < N_frames)) as [Hi|Hi].
  - rewrite list_lookup_fmap, lookup_seq_lt by done. simpl.
    set (id := (i / 10) mod n_threads).
    assert (id < n_threads) as Hid by (apply Nat.mod_upper_bound; lia).
    assert (is_Some (ps'.1 !! id)) as [w Hw].
    { apply lookup_lt_is_Some. rewrite Hws, Hlen1. unfold ps0. simpl.
      by rewrite length_fmap, length_seq. }
    pose proof (Hend id w) as Hzero.
    destruct (Hinv' id w Hw) as (finished & cur & Hfr & Hfin & Hpc).
    unfold steps_left in Hzero.
    destruct (w_pc w); try done.
    + specialize (Hzero ltac:(apply elem_of_seq; lia) Hw). lia.
    + specialize (Hzero ltac:(apply elem_of_seq; lia) Hw). lia.
    + destruct Hpc as [-> Htodo]. rewrite Htodo, !app_nil_r in Hfr.
      apply Hfin. rewrite <- Hfr. by apply frames_of_owner.
  - rewrite !lookup_ge_None_2; [done| |lia].
    by rewrite length_fmap, length_seq; lia.
Qed.

End OmpEuclidean.

(** ** The call with OpenMP *)

Section OmpFacts.
Context `{G : Geometry}.

(** With the Euclidean metric the OpenMP build, with any number of
    workers and any interleaving, gives the output and the heap of the
    serial build. *)
Lemma c_assign_omp_euclidean chunk centers N_frames N_centers dim n_threads
    sched ok_a ok_b s :
  well_formed chunk centers N_frames N_centers dim s → 0 < n_threads →
  ∃ s' t', c_assign_omp chunk centers "euclidean" N_frames N_centers dim
             n_threads sched ok_a ok_b s = Some (ASSIGN_SUCCESS, s')
         ∧ c_assign chunk centers "euclidean" N_frames N_centers dim
             n_threads ok_a ok_b s = Some (ASSIGN_SUCCESS, t')
         ∧ st_dtraj s' = st_dtraj t' ∧ st_heap s' = st_heap t'.
Proof.
  intros Hwf Hn.
  destruct (c_assign_ok Euclidean chunk centers N_frames N_centers dim n_threads
              ok_a ok_b s Hwf) as (t' & Ht & Hdt & Hheap); [done|].
  destruct Hwf as (Hchunk & Hcenters & Hlen).
  destruct (omp_region_euclidean chunk centers N_frames N_centers dim n_threads
              None None Hchunk Hcenters sched s Hn Hlen) as (s' & Hs & Hds & Hhs).
  exists s', t'. split; [|split; [done|split; congruence]].
  unfold c_assign_omp, c_assign_with.
  change (String.eqb "euclidean" "euclidean") with true. cbv iota.
  by rewrite Hs.
Qed.

Lemma worker_step_log m chunk centers N_centers dim buffer_a buffer_b id w s w' s' :
  worker_step m chunk centers N_centers dim buffer_a buffer_b id w s
  = Some (w', s') →
  ∃ l, st_log s' = st_log s ++ l ∧ ∀ e, e ∈ l → region_event buffer_a buffer_b e.
Proof.
  unfold worker_step, store_dtraj. intros Hstep.
  assert (∀ e, e ∈ [] → region_event buffer_a buffer_b e) as Hnil.
  { intros e He. by apply elem_of_nil in He. }
  assert (∀ e0, region_event buffer_a buffer_b e0 →
            ∀ e, e ∈ [e0] → region_event buffer_a buffer_b e) as Hone.
  { intros e0 He0 e He. by apply list_elem_of_singleton in He as ->. }
  repeat case_match; simplify_option_eq;
    repeat (case_match; simplify_eq/=);
    try (exists []; by rewrite app_nil_r);
    (simpl; eexists [_]; split; [reflexivity|]; apply Hone; simpl; auto).
Qed.

Lemma omp_run_log m chunk centers N_centers dim buffer_a buffer_b sched ps ps' :
  omp_run m chunk centers N_centers dim buffer_a buffer_b sched ps = Some ps' →
  ∃ l, st_log ps'.2 = st_log ps.2 ++ l
     ∧ ∀ e, e ∈ l → region_event buffer_a buffer_b e.
Proof.
  revert ps. induction sched as [|id sched IH]; intros ps Hrun; simpl in Hrun.
  - injection Hrun as <-. exists []. rewrite app_nil_r. split; [done|].
    intros e He. by apply elem_of_nil in He.
  - destruct (omp_step _ _ _ _ _ _ _ _ _) as [ps1|] eqn:Hstep; [|done].
    simpl in Hrun. destruct (IH ps1 Hrun) as (l2 & Hl2 & Hev2).
    assert (∃ l1, st_log ps1.2 = st_log ps.2 ++ l1
                ∧ ∀ e, e ∈ l1 → region_event buffer_a buffer_b e)
      as (l1 & Hl1 & Hev1).
    { unfold omp_step in Hstep. destruct (ps.1 !! id) as [w|].
      - destruct (worker_step _ _ _ _ _ _ _ _ _ _) as [[w' s1]|] eqn:Hw; [|done].
        simpl in Hstep. injection Hstep as <-. simpl.
        by eapply worker_step_log.
      - injection Hstep as <-. exists []. rewrite app_nil_r. split; [done|].
        intros e He. by apply elem_of_nil in He. }
    exists (l1 ++ l2). rewrite Hl2, Hl1, app_assoc. split; [done|].
    intros e He. apply elem_of_app in He as [He|He]; auto.
Qed.

End OmpFacts.

(** ** The race on the scratch buffers, for any geometry library *)

Section RaceFacts.
Context `{G : Geometry}.
Variables (chunk centers : list float32) (N_centers dim p q : nat).
Variables (x y : list float32) (s : state).
Hypothesis Hchunk : length chunk = 11 * dim.
Hypothesis Hcenters : length centers = N_centers * dim.
Hypothesis Hpos : 0 < N_centers.
Hypothesis Hpq : p ≠ q.
Hypothesis Hp : st_heap s !! p = Some x.
Hypothesis Hq : st_heap s !! q = Some y.
Hypothesis Hx : dim ≤ length x.
Hypothesis Hy : dim ≤ length y.

Local Arguments memcpy : simpl never.
Local Arguments center_call : simpl never.
Local Arguments msd_call : simpl never.
Local Arguments drop : simpl never.
Local Arguments take : simpl never.
Local Arguments Nat.div : simpl never.
Local Arguments Nat.mul : simpl never.

Lemma omp_run_cons_Some m N id sched ps ps1 ba bb :
  omp_step m chunk centers N dim ba bb id ps = Some ps1 →
  omp_run m chunk centers N dim ba bb (id :: sched) ps
  = omp_run m chunk centers N dim ba bb sched ps1.
Proof. intros H. simpl. by rewrite H. Qed.

Lemma take_centred (l rest : list float32) k :
  3 * k ≤ length l →
  take (3 * k) ((inplace_center_and_trace_atom_major (take (3 * k) l) 1 k).1 ++ rest)
  = (inplace_center_and_trace_atom_major (take (3 * k) l) 1 k).1.
Proof.
  intros Hl. rewrite take_app_le by (rewrite center_take_length; lia).
  apply take_ge. rewrite center_take_length; lia.
Qed.

Lemma take_copy (l rest : list float32) k n :
  k ≤ n → n ≤ length l → take k (take n l ++ rest) = take k l.
Proof.
  intros Hk Hn. rewrite take_app_le by (rewrite length_take; lia).
  rewrite take_take. f_equal. lia.
Qed.

Ltac heap_lookup :=
  cbn [st_heap set_heap emit];
  repeat first [rewrite lookup_insert_eq | rewrite lookup_insert_ne by done];
  first [reflexivity | eassumption].

Ltac blk_len :=
  repeat first [rewrite length_app | rewrite length_take | rewrite length_drop
               | rewrite inplace_center_length];
  nia.

(** One turn of the interleaving, run on the symbolic state. *)
Ltac race_turn :=
  erewrite omp_run_cons_Some;
  [| unfold omp_step, worker_step; cbn;
     rewrite ?decide_True by done;
     first [ reflexivity
           | erewrite memcpy_eq; [bind_step; reflexivity|heap_lookup|blk_len|blk_len]
           | erewrite center_call_eq; [bind_step; reflexivity|heap_lookup|blk_len]
           | erewrite msd_call_eq;
             [bind_step; reflexivity|heap_lookup|heap_lookup|blk_len|blk_len] ] ].

(** Two workers, eleven frames, any data and any library: when worker
    1 starts frame 10 between the centring and the [msd_atom_major] call
    of worker 0 for frame 0 and centre 0, that call is given the centred
    coordinates of frame 10 and the uncentred ones of centre 0, with the
    traces of frame 0 and centre 0. *)
Lemma race_reads_other_frame :
  ∃ ws s',
    omp_run MinRMSD chunk centers N_centers dim (Some p) (Some q)
      (race_sched ++ [0]) (init_worker 2 11 <$> seq 0 2, s) = Some (ws, s')
    ∧ w_best <$> ws !! 0
      = Some (update_min
                (sqrt_of_msd
                   (msd_atom_major (dim / 3) (dim / 3)
                      (inplace_center_and_trace_atom_major
                         (take (3 * (dim / 3)) (drop (10 * dim) chunk))
                         1 (dim / 3)).1
                      (take (3 * (dim / 3)) (drop (0 * dim) centers))
                      (inplace_center_and_trace_atom_major
                         (take (3 * (dim / 3)) (drop (0 * dim) chunk))
                         1 (dim / 3)).2
                      (inplace_center_and_trace_atom_major
                         (take (3 * (dim / 3)) (drop (0 * dim) centers))
                         1 (dim / 3)).2))
                0 (FLT_MAX, to_size_t (-1))).
Proof.
  pose proof (Nat.Div0.mul_div_le dim 3) as Hdiv.
  unfold race_sched.
  change (init_worker 2 11 <$> seq 0 2)
    with [init_worker 2 11 0; init_worker 2 11 1].
  unfold init_worker.
  change (frames_of 2 11 0) with [0; 1; 2; 3; 4; 5; 6; 7; 8; 9].
  change (frames_of 2 11 1) with [10].
  cbn [app].
  do 10 race_turn.
  eexists _, _. split; [reflexivity|].
  cbn [lookup list_lookup fmap option_fmap option_map next_center w_best w_j].
  assert (dim ≤ length (drop (0 * dim) chunk)) as Hf0 by blk_len.
  assert (dim ≤ length (drop (10 * dim) chunk)) as Hf10 by blk_len.
  assert (dim ≤ length (drop (0 * dim) centers)) as Hc0 by blk_len.
  rewrite !(take_copy _ _ (3 * (dim / 3)) dim) by done.
  rewrite take_centred by lia. done.
Qed.

End RaceFacts.

(** C3 does not hold of the code: with the minRMSD metric the OpenMP
    build allocates two blocks in all, whatever the number of workers,
    and every distance evaluation of every worker is handed these same
    two blocks. With two workers on eleven frames, worker 0 (frame 0)
    and worker 1 (frame 10) both use the blocks 0 and 1. *)
Theorem one_scratch_pair_for_all_workers :
  (∀ (G : Geometry) chunk centers N_frames N_centers dim n_threads sched s st s',
     c_assign_omp chunk centers "minRMSD" N_frames N_centers dim n_threads sched
       true true s = Some (st, s') →
     ∃ p q l,
       st_log s'
       = st_log s ++ [EvMalloc dim (Some p); EvMalloc dim (Some q)] ++ l
         ++ [EvFree p; EvFree q]
       ∧ ∀ e, e ∈ l → region_event (Some p) (Some q) e)
  ∧ ∃ s', c_assign_omp (G := shift_geometry) race_chunk race_centers "minRMSD"
            11 2 6 2 [] true true (init_state (replicate 11 0%Z))
          = Some (ASSIGN_SUCCESS, s')
        ∧ EvDistance 0 0 0 (Some 0) (Some 1) ∈ st_log s'
        ∧ EvDistance 1 10 0 (Some 0) (Some 1) ∈ st_log s'.
Proof.
  split.
  - intros G chunk centers N_frames N_centers dim n_threads sched s st s' Hcall.
    unfold c_assign_omp, c_assign_with in Hcall.
    change (String.eqb "minRMSD" "euclidean") with false in Hcall.
    change (String.eqb "minRMSD" "minRMSD") with true in Hcall. cbv iota in Hcall.
    destruct (malloc_pair dim s)
      as (p & q & s1 & s2 & Hma & Hmb & _ & _ & _ & _ & _ & Hlog).
    rewrite Hma, Hmb in Hcall. cbn [is_null orb] in Hcall.
    destruct (omp_region _ _ _ _ _ _ _ _ _ _ _) as [s3|] eqn:Hregion; [|done].
    simpl in Hcall. injection Hcall as <- <-.
    unfold omp_region in Hregion.
    destruct (decide _) as [_|_] in Hregion; [|done].
    destruct (omp_run _ _ _ _ _ _ _ _ _) as [ps|] eqn:Hrun; [|done].
    simpl in Hregion. injection Hregion as <-.
    apply omp_run_log in Hrun as (l & Hl & Hev). simpl in Hl.
    exists p, q, l. split; [|done]. simpl.
    rewrite Hl, Hlog, <- !app_assoc. done.
  - destruct (c_assign_omp (G := shift_geometry) race_chunk race_centers "minRMSD"
                11 2 6 2 [] true true (init_state (replicate 11 0%Z)))
      as [[st s']|] eqn:E; vm_compute in E; [|discriminate].
    injection E as <- <-. eexists. split; [reflexivity|].
    cbn [st_log]. split; repeat constructor.
Qed.

Lemma one_scratch_pair_for_all_workers_witness :
  ∃ p q l,
    [EvMalloc 3 (Some 0); EvMalloc 3 (Some 1);
     EvDistance 0 0 0 (Some 0) (Some 1); EvStore 0 0 0; EvFree 0; EvFree 1]
    = [] ++ [EvMalloc 3 (Some p); EvMalloc 3 (Some q)] ++ l ++ [EvFree p; EvFree q]
    ∧ ∀ e, e ∈ l → region_event (Some p) (Some q) e.
Proof.
  apply (proj1 one_scratch_pair_for_all_workers shift_geometry
           (vec [0; 0; 0]%Z) (vec [1; 1; 1]%Z) 1 1 3 4 [3; 0; 1]
           (init_state [7%Z]) ASSIGN_SUCCESS
           {| st_dtraj := [0%Z]; st_heap := ∅;
              st_log := [EvMalloc 3 (Some 0); EvMalloc 3 (Some 1);
                         EvDistance 0 0 0 (Some 0) (Some 1); EvStore 0 0 0;
                         EvFree 0; EvFree 1] |}).
  vm_compute. reflexivity.
Defined.

(** C4 does not hold of the code with the minRMSD metric: on the same
    frames and centres the serial build and the OpenMP build with one
    worker assign every frame to centre 0, and the OpenMP build with two
    workers does so under one interleaving and assigns frame 0 to centre
    1 under another, in which worker 1 overwrites the shared scratch
    buffers between two statements of worker 0. *)
Theorem minRMSD_output_depends_on_interleaving :
  ((λ r, st_dtraj r.2) <$>
     c_assign (G := shift_geometry) race_chunk race_centers "minRMSD" 11 2 6 1
       true true (init_state (replicate 11 7%Z)))
  = Some (replicate 11 0%Z)
  ∧ ((λ r, st_dtraj r.2) <$>
       c_assign_omp (G := shift_geometry) race_chunk race_centers "minRMSD"
         11 2 6 1 [] true true (init_state (replicate 11 7%Z)))
    = Some (replicate 11 0%Z)
  ∧ ((λ r, st_dtraj r.2) <$>
       c_assign_omp (G := shift_geometry) race_chunk race_centers "minRMSD"
         11 2 6 2 [] true true (init_state (replicate 11 7%Z)))
    = Some (replicate 11 0%Z)
  ∧ ((λ r, st_dtraj r.2) <$>
       c_assign_omp (G := shift_geometry) race_chunk race_centers "minRMSD"
         11 2 6 2 race_sched true true (init_state (replicate 11 7%Z)))
    = Some (1%Z :: replicate 10 0%Z).
Proof. repeat split; vm_compute; reflexivity. Qed.

(** * Further properties of the code *)

(** ** The Euclidean metric as a distance *)

Lemma binary_round_aux_abs prec emax s s' m e l :
  SFabs (binary_round_aux prec emax s m e l) = SFabs (binary_round_aux prec emax s' m e l).
Proof.
  unfold binary_round_aux.
  destruct (shr_fexp prec emax m e l) as [mrs' e'].
  destruct (shr_fexp prec emax _ e' loc_Exact) as [mrs'' e''].
  destruct (shr_m mrs''); try done. by destruct (Z.leb _ _).
Qed.

Lemma binary_round_abs prec emax s s' m e :
  SFabs (binary_round prec emax s m e) = SFabs (binary_round prec emax s' m e).
Proof.
  unfold binary_round. destruct (shl_align _ _ _) as [mz ez].
  apply binary_round_aux_abs.
Qed.

Lemma binary_normalize_opp_abs prec emax z e :
  SFabs (binary_normalize prec emax (- z) e false)
  = SFabs (binary_normalize prec emax z e false).
Proof. destruct z; simpl; try done; apply binary_round_abs. Qed.

Lemma f32_sub_swap_abs x y : SFabs (f32_sub x y) = SFabs (f32_sub y x).
Proof.
  unfold f32_sub.
  destruct x as [[]|[]| |sx mx ex], y as [[]|[]| |sy my ey]; try done.
  unfold SFsub. rewrite (Z.min_comm ey ex).
  rewrite <- binary_normalize_opp_abs. f_equal. f_equal. lia.
Qed.

Lemma f32_mul_self_abs u v : SFabs u = SFabs v → f32_mul u u = f32_mul v v.
Proof.
  unfold f32_mul.
  destruct u as [[]|[]| |[] mu eu], v as [[]|[]| |[] mv ev]; simpl; intros H;
    try done; by injection H as -> ->.
Qed.

Lemma sq_diff_swap x y : sq_diff x y = sq_diff y x.
Proof.
  unfold sq_diff. f_equal. apply f32_mul_self_abs, f32_sub_swap_abs.
Qed.

Lemma binary_round_aux_nonneg prec emax m e l :
  nonneg (binary_round_aux prec emax false m e l).
Proof.
  unfold binary_round_aux.
  destruct (shr_fexp prec emax m e l) as [mrs' e'].
  destruct (shr_fexp prec emax _ e' loc_Exact) as [mrs'' e''].
  destruct (shr_m mrs''); try done. by destruct (Z.leb _ _).
Qed.

Lemma binary_round_nonneg prec emax m e : nonneg (binary_round prec emax false m e).
Proof.
  unfold binary_round. destruct (shl_align _ _ _) as [mz ez].
  apply binary_round_aux_nonneg.
Qed.

Lemma f32_mul_self_nonneg u : nonneg (f32_mul u u).
Proof.
  unfold f32_mul. destruct u as [[]|[]| |[] mu eu]; simpl; try done;
    apply binary_round_aux_nonneg.
Qed.

Lemma f64_of_f32_nonneg x : nonneg x → nonneg (f64_of_f32 x).
Proof.
  destruct x as [[]|[]| |[] m e]; simpl; try done. intros _. apply binary_round_nonneg.
Qed.

Lemma f32_of_f64_nonneg x : nonneg x → nonneg (f32_of_f64 x).
Proof.
  destruct x as [[]|[]| |[] m e]; simpl; try done. intros _. apply binary_round_nonneg.
Qed.

Lemma sq_diff_nonneg x y : nonneg (sq_diff x y).
Proof. apply f64_of_f32_nonneg, f32_mul_self_nonneg. Qed.

Lemma f64_add_nonneg x y : nonneg x → nonneg y → nonneg (f64_add x y).
Proof.
  unfold f64_add.
  destruct x as [[]|[]| |[] mx ex], y as [[]|[]| |[] my ey]; simpl; try done.
  intros _ _. 
  destruct (shl_align mx ex (Z.min ex ey)) as [a ?], (shl_align my ey (Z.min ex ey)) as [b ?].
  simpl. apply binary_round_nonneg.
Qed.

Lemma f64_sqrt_nonneg x : nonneg x → nonneg (f64_sqrt x).
Proof.
  unfold f64_sqrt. destruct x as [[]|[]| |[] m e]; simpl; try done. intros _.
  destruct (SFsqrt_core_binary 53 1024 (Z.pos m) e) as [[mz ez] lz].
  apply binary_round_aux_nonneg.
Qed.

Lemma foldl_f64_add_nonneg l acc :
  nonneg acc → Forall nonneg l → nonneg (foldl f64_add acc l).
Proof.
  revert acc. induction l as [|x l IH]; intros acc Hacc Hl; simpl; [done|].
  inversion Hl; subst. apply IH; [by apply f64_add_nonneg|done].
Qed.

Lemma euclidean_spec_nonneg a b n : nonneg (euclidean_spec a b n).
Proof.
  unfold euclidean_spec. apply f32_of_f64_nonneg, f64_sqrt_nonneg.
  apply foldl_f64_add_nonneg; [done|].
  apply Forall_forall. intros x Hx. apply list_elem_of_lookup in Hx as [i Hi].
  rewrite lookup_zip_with in Hi.
  destruct (take n a !! i); simpl in Hi; [|done].
  destruct (take n b !! i); simpl in Hi; [|done].
  injection Hi as <-. apply sq_diff_nonneg.
Qed.

Lemma nonneg_not_lt_zero x s : nonneg x → f32_lt x (S754_zero s) = false.
Proof. destruct x as [[]|[]| |[] m e]; simpl; try done. Qed.

Lemma f32_sub_self x : is_finite x → f32_sub x x = S754_zero false.
Proof.
  unfold f32_sub. destruct x as [[]|[]| |s m e]; simpl; try done. intros _.
  rewrite Z.sub_diag. done.
Qed.

Lemma sq_diff_self x : is_finite x → sq_diff x x = S754_zero false.
Proof. intros H. unfold sq_diff. rewrite f32_sub_self by done. done. Qed.

Lemma foldl_f64_add_zero l :
  Forall (λ x, x = S754_zero false) l → foldl f64_add (S754_zero false) l = S754_zero false.
Proof.
  induction l as [|x l IH]; intros Hl; simpl; [done|].
  inversion Hl; subst. simpl. by apply IH.
Qed.

Lemma euclidean_spec_self (a : list float32) n :
  Forall is_finite (take n a) → euclidean_spec a a n = S754_zero false.
Proof.
  intros Hfin. unfold euclidean_spec. rewrite foldl_f64_add_zero; [done|].
  apply Forall_forall. intros x Hx. apply list_elem_of_lookup in Hx as [i Hi].
  rewrite lookup_zip_with in Hi.
  destruct (take n a !! i) as [v|] eqn:Hv; simpl in Hi; [|done].
  injection Hi as <-. apply sq_diff_self.
  rewrite Forall_forall in Hfin. apply Hfin. apply list_elem_of_lookup. eauto.
Qed.

Lemma zip_with_sq_diff_swap (a b : list float32) :
  zip_with sq_diff a b = zip_with sq_diff b a.
Proof.
  revert b. induction a as [|x a IH]; intros [|y b]; simpl; try done.
  by rewrite sq_diff_swap, IH.
Qed.

Lemma euclidean_spec_swap a b n : euclidean_spec a b n = euclidean_spec b a n.
Proof. unfold euclidean_spec. by rewrite zip_with_sq_diff_swap. Qed.

(** X1: the Euclidean metric is symmetric: on vectors with at least [n]
    components, exchanging the two vectors gives the same float,
    whatever scratch pointers are passed. *)
Theorem euclidean_distance_symmetric (a b : list float32) n
    buffer_a buffer_b buffer_a' buffer_b' :
  n ≤ length a → n ≤ length b →
  euclidean_distance a b n buffer_a buffer_b
  = euclidean_distance b a n buffer_a' buffer_b'.
Proof.
  intros Ha Hb. rewrite !euclidean_distance_spec by done.
  by rewrite euclidean_spec_swap.
Qed.

Lemma euclidean_distance_symmetric_witness :
  euclidean_distance (vec [1; 2; 3]%Z) (vec [3; 5; 9]%Z) 3 None None
  = euclidean_distance (vec [3; 5; 9]%Z) (vec [1; 2; 3]%Z) 3 (Some 0) (Some 1).
Proof.
  apply euclidean_distance_symmetric; simpl; lia.
Defined.

(** X2: the Euclidean metric never returns a negative float, nor -0:
    on vectors with at least [n] components the result is +0, a positive
    number, +inf or a NaN, so it is never below zero. *)
Theorem euclidean_distance_not_negative (a b : list float32) n buffer_a buffer_b :
  n ≤ length a → n ≤ length b →
  ∃ d, euclidean_distance a b n buffer_a buffer_b = Some d
     ∧ nonneg d ∧ f32_lt d (S754_zero false) = false.
Proof.
  intros Ha Hb. exists (euclidean_spec a b n).
  split; [by apply euclidean_distance_spec|].
  split; [apply euclidean_spec_nonneg|].
  apply nonneg_not_lt_zero, euclidean_spec_nonneg.
Qed.

Lemma euclidean_distance_not_negative_witness :
  ∃ d, euclidean_distance (vec [-1; 2]%Z) [S754_zero true; neg_FLT_MAX] 2 None None
       = Some d
     ∧ nonneg d ∧ f32_lt d (S754_zero false) = false.
Proof.
  apply euclidean_distance_not_negative; simpl; lia.
Defined.

(** X3: the Euclidean distance of a vector to itself is +0 when its
    first [n] components are zeros or finite numbers. (With an infinite
    or NaN component the difference is a NaN.) *)
Theorem euclidean_distance_to_itself (a : list float32) n buffer_a buffer_b :
  n ≤ length a → Forall is_finite (take n a) →
  euclidean_distance a a n buffer_a buffer_b = Some (S754_zero false).
Proof.
  intros Ha Hfin. rewrite euclidean_distance_spec by done.
  by rewrite euclidean_spec_self.
Qed.

Lemma euclidean_distance_to_itself_witness :
  euclidean_distance (vec [3; -4; 0]%Z) (vec [3; -4; 0]%Z) 3 None None
  = Some (S754_zero false).
Proof.
  apply euclidean_distance_to_itself; [simpl; lia|].
  repeat constructor.
Defined.

(** ** The centre that is chosen *)

Lemma scan_pure_nearest ds j d :
  ds !! j = Some d → f32_lt d FLT_MAX = true →
  ∃ a da, ds !! a = Some da
     ∧ (scan_pure ds 0 (FLT_MAX, to_size_t (-1))).2 = to_size_t (Z.of_nat a)
     ∧ f32_lt da FLT_MAX = true
     ∧ ∀ k d', ds !! k = Some d' → f32_lt d' da = false.
Proof.
  intros Hj Hd.
  destruct (scan_pure_result ds) as [[Hnone _]|(a & Ha & Ham & Hmd & Hlow & _)].
  - by rewrite (Hnone _ _ Hj) in Hd.
  - by exists a, (scan_pure ds 0 (FLT_MAX, to_size_t (-1))).1.
Qed.

(** What the scan stores: -1, or the index of a distance below
    [FLT_MAX]. *)
Lemma scan_pure_cases ds :
  (scan_pure ds 0 (FLT_MAX, to_size_t (-1))).2 = to_size_t (-1)
  ∨ ∃ a da, ds !! a = Some da
      ∧ (scan_pure ds 0 (FLT_MAX, to_size_t (-1))).2 = to_size_t (Z.of_nat a)
      ∧ f32_lt da FLT_MAX = true.
Proof.
  destruct (scan_pure_result ds) as [[_ ->]|(a & Ha & Ham & Hmd & _)];
    [by left|].
  right. by exists a, (scan_pure ds 0 (FLT_MAX, to_size_t (-1))).1.
Qed.

(** X4: the index written for a frame is that of a nearest centre. A
    call on well-formed input with a known metric and a number of
    centres that fits an [int] succeeds, and for a frame with some centre
    at a distance below FLT_MAX the slot holds the index of a centre
    whose distance is below FLT_MAX and that no other centre is strictly
    closer than. *)
Theorem assigned_centre_is_nearest `{G : Geometry}
    m chunk centers N_frames N_centers dim n_threads s :
  well_formed chunk centers N_frames N_centers dim s →
  (Z.of_nat N_centers < 2 ^ 31)%Z →
  ∃ s', c_assign chunk centers (metric_name m) N_frames N_centers dim n_threads
          true true s = Some (ASSIGN_SUCCESS, s')
      ∧ ∀ i, i < N_frames →
          (∃ j, j < N_centers
              ∧ f32_lt (dist_value m chunk centers dim i j) FLT_MAX = true) →
          ∃ a, a < N_centers ∧ st_dtraj s' !! i = Some (Z.of_nat a)
             ∧ f32_lt (dist_value m chunk centers dim i a) FLT_MAX = true
             ∧ ∀ k, k < N_centers →
                 f32_lt (dist_value m chunk centers dim i k)
                   (dist_value m chunk centers dim i a) = false.
Proof.
  intros Hwf Hint.
  destruct (c_assign_frame m chunk centers N_frames N_centers dim n_threads s Hwf)
    as (s' & Hs & Hdt).
  exists s'. split; [done|]. intros i Hi (j & Hj & Hlt).
  destruct (scan_pure_nearest (distances m chunk centers dim i 0 N_centers) j
              (dist_value m chunk centers dim i j))
    as (a & da & Ha & Heq & Hda & Hlow); [by apply distances_lookup|done|].
  apply distances_lookup_Some in Ha as [Ha ->].
  exists a. split; [done|]. rewrite Hdt by done.
  rewrite Heq, to_int32_index by lia. split; [done|]. split; [done|].
  intros k Hk. eapply Hlow. by apply distances_lookup.
Qed.

Lemma assigned_centre_is_nearest_witness :
  ∃ s', c_assign (G := shift_geometry) (vec [4; 4]%Z) (vec [0; 0; 3; 4; 9; 9]%Z)
          "euclidean" 1 3 2 1 true true (init_state [7%Z])
        = Some (ASSIGN_SUCCESS, s')
      ∧ ∃ a, a < 3 ∧ st_dtraj s' !! 0 = Some (Z.of_nat a)
           ∧ f32_lt (dist_value (G := shift_geometry) Euclidean (vec [4; 4]%Z)
                       (vec [0; 0; 3; 4; 9; 9]%Z) 2 0 a) FLT_MAX = true
           ∧ ∀ k, k < 3 →
               f32_lt (dist_value (G := shift_geometry) Euclidean (vec [4; 4]%Z)
                         (vec [0; 0; 3; 4; 9; 9]%Z) 2 0 k)
                 (dist_value (G := shift_geometry) Euclidean (vec [4; 4]%Z)
                    (vec [0; 0; 3; 4; 9; 9]%Z) 2 0 a) = false.
Proof.
  destruct (assigned_centre_is_nearest (G := shift_geometry) Euclidean
              (vec [4; 4]%Z) (vec [0; 0; 3; 4; 9; 9]%Z) 1 3 2 1 (init_state [7%Z]))
    as (s' & Hs & Hprop).
  - repeat split; reflexivity.
  - reflexivity.
  - exists s'. split; [exact Hs|]. apply Hprop; [lia|].
    exists 0. split; [lia|reflexivity].
Defined.

(** X5: under the Euclidean metric a centre with a NaN among its
    components is never chosen: on well-formed input with a number of
    centres that fits an [int], no slot receives its index. *)
Theorem nan_centre_never_assigned `{G : Geometry}
    chunk centers N_frames N_centers dim n_threads s j k :
  well_formed chunk centers N_frames N_centers dim s →
  (Z.of_nat N_centers < 2 ^ 31)%Z →
  j < N_centers → k < dim → centers !! (j * dim + k) = Some S754_nan →
  ∃ s', c_assign chunk centers "euclidean" N_frames N_centers dim n_threads
          true true s = Some (ASSIGN_SUCCESS, s')
      ∧ ∀ i, i < N_frames → st_dtraj s' !! i ≠ Some (Z.of_nat j).
Proof.
  intros Hwf Hint Hj Hk Hnan.
  destruct (c_assign_frame Euclidean chunk centers N_frames N_centers dim
              n_threads s Hwf) as (s' & Hs & Hdt).
  exists s'. split; [done|]. intros i Hi. rewrite Hdt by done.
  destruct Hwf as (Hchunk & Hcenters & _).
  assert (dist_value Euclidean chunk centers dim i j = S754_nan) as Hdj.
  { unfold dist_value. rewrite euclidean_spec_swap.
    apply (euclidean_spec_nan _ _ _ k); [done|by eapply frame_slice|].
    by rewrite lookup_drop. }
  destruct (scan_pure_cases (distances Euclidean chunk centers dim i 0 N_centers))
    as [->|(a & da & Ha & -> & Hda)].
  - rewrite to_int32_initial. intros [= Heq]. lia.
  - apply distances_lookup_Some in Ha as [Ha ->].
    rewrite to_int32_index by lia. intros [= Heq].
    apply Nat2Z.inj in Heq as ->. by rewrite Hdj in Hda.
Qed.

Lemma nan_centre_never_assigned_witness :
  ∃ s', c_assign (G := shift_geometry) (vec [4; 4]%Z)
          ([f32_of_Z 4; S754_nan] ++ vec [9; 9]%Z)
          "euclidean" 1 2 2 1 true true (init_state [7%Z])
        = Some (ASSIGN_SUCCESS, s')
      ∧ ∀ i, i < 1 → st_dtraj s' !! i ≠ Some (Z.of_nat 0).
Proof.
  apply (nan_centre_never_assigned (G := shift_geometry) (vec [4; 4]%Z)
           ([f32_of_Z 4; S754_nan] ++ vec [9; 9]%Z) 1 2 2 1 (init_state [7%Z])
           0 1).
  - repeat split; reflexivity.
  - reflexivity.
  - lia.
  - lia.
  - reflexivity.
Defined.

Lemma euclidean_spec_take (a a' b b' : list float32) n :
  take n a = take n a' → take n b = take n b' →
  euclidean_spec a b n = euclidean_spec a' b' n.
Proof. intros Ha Hb. unfold euclidean_spec. by rewrite Ha, Hb. Qed.

(** X6: under the Euclidean metric a frame that coincides with centre
    [j], its coordinates being zeros or finite numbers, is assigned to
    a centre at distance zero from it, of index at most [j]. *)
Theorem exact_match_assigned_at_distance_zero `{G : Geometry}
    chunk centers N_frames N_centers dim n_threads s i j :
  well_formed chunk centers N_frames N_centers dim s →
  (Z.of_nat N_centers < 2 ^ 31)%Z →
  i < N_frames → j < N_centers →
  take dim (drop (i * dim) chunk) = take dim (drop (j * dim) centers) →
  Forall is_finite (take dim (drop (i * dim) chunk)) →
  ∃ s' j0, c_assign chunk centers "euclidean" N_frames N_centers dim n_threads
             true true s = Some (ASSIGN_SUCCESS, s')
         ∧ st_dtraj s' !! i = Some (Z.of_nat j0) ∧ j0 ≤ j
         ∧ f32_eq (dist_value Euclidean chunk centers dim i j0) (S754_zero false)
           = true.
Proof.
  intros Hwf Hint Hi Hj Hsame Hfin.
  destruct (c_assign_frame Euclidean chunk centers N_frames N_centers dim
              n_threads s Hwf) as (s' & Hs & Hdt).
  assert (dist_value Euclidean chunk centers dim i j = S754_zero false) as Hdj.
  { unfold dist_value.
    rewrite (euclidean_spec_take _ (drop (i * dim) chunk) _ (drop (i * dim) chunk))
      by done.
    by apply euclidean_spec_self. }
  destruct (scan_pure_first_min (distances Euclidean chunk centers dim i 0 N_centers)
              j (S754_zero false)) as (a & da & Heq & Haj & Ha & Hda & _).
  { rewrite distances_lookup by done. by rewrite Hdj. }
  { done. }
  { intros k d Hk. apply distances_lookup_Some in Hk as [_ ->].
    apply nonneg_not_lt_zero. unfold dist_value. apply euclidean_spec_nonneg. }
  apply distances_lookup_Some in Ha as [Ha ->].
  exists s', a. split; [done|]. rewrite Hdt by done.
  rewrite Heq, to_int32_index by lia. done.
Qed.

Lemma exact_match_assigned_at_distance_zero_witness :
  ∃ s' j0, c_assign (G := shift_geometry) (vec [3; 4]%Z) (vec [0; 0; 3; 4; 3; 4]%Z)
             "euclidean" 1 3 2 1 true true (init_state [7%Z])
           = Some (ASSIGN_SUCCESS, s')
         ∧ st_dtraj s' !! 0 = Some (Z.of_nat j0) ∧ j0 ≤ 2
         ∧ f32_eq (dist_value (G := shift_geometry) Euclidean (vec [3; 4]%Z)
                     (vec [0; 0; 3; 4; 3; 4]%Z) 2 0 j0) (S754_zero false) = true.
Proof.
  apply (exact_match_assigned_at_distance_zero (G := shift_geometry)
           (vec [3; 4]%Z) (vec [0; 0; 3; 4; 3; 4]%Z) 1 3 2 1 (init_state [7%Z]) 0 2).
  - repeat split; reflexivity.
  - reflexivity.
  - lia.
  - lia.
  - reflexivity.
  - repeat constructor.
Defined.

(** ** The trace of the serial build *)

Section TraceFacts.
Context `{G : Geometry}.
Variables (m : metric_fn) (chunk centers : list float32).
Variables (N_frames N_centers dim : nat) (buffer_a buffer_b : option nat).
Hypothesis Hchunk : length chunk = N_frames * dim.
Hypothesis Hcenters : length centers = N_centers * dim.

Lemma scan_centers_log worker i k j best s r s' :
  scan_centers m chunk centers dim buffer_a buffer_b worker i k j best s
  = Some (r, s') →
  st_log s' = st_log s ++ ((λ j', EvDistance worker i j' buffer_a buffer_b)
                             <$> seq j k).
Proof.
  revert j best s. induction k as [|k IH]; intros j best s Hscan.
  - injection Hscan as _ <-. by rewrite app_nil_r.
  - cbn [scan_centers] in Hscan.
    destruct (distance _ _ _ _ _ _ _) as [[d h]|]; [|done].
    apply IH in Hscan. rewrite Hscan. simpl. by rewrite <- app_assoc.
Qed.

Lemma assign_frames_log k i s :
  i + k ≤ N_frames → i + k ≤ length (st_dtraj s) →
  scratch_ok m dim buffer_a buffer_b (st_heap s) →
  ∃ s', assign_frames m chunk centers N_centers dim buffer_a buffer_b k i s
        = Some s'
      ∧ st_log s'
        = st_log s ++ serial_trace m chunk centers N_centers dim
                        buffer_a buffer_b i k.
Proof.
  revert i s. induction k as [|k IH]; intros i s Hik Hlen Hok.
  - exists s. split; [done|]. by rewrite app_nil_r.
  - destruct (assign_frame_ok m chunk centers N_frames N_centers dim
                buffer_a buffer_b Hchunk Hcenters 0 i s)
      as (s1 & Hs1 & Hdt1 & Hok1 & _); [lia|lia|done|].
    destruct (IH (S i) s1) as (s' & Hs & Hlog);
      [lia|rewrite Hdt1, length_insert; lia|done|].
    exists s'. cbn [assign_frames]. rewrite Hs1. bind_step. split; [done|].
    rewrite Hlog. unfold serial_trace. cbn [seq mbind list_bind].
    rewrite app_assoc. f_equal.
    unfold assign_frame in Hs1.
    destruct (scan_centers _ _ _ _ _ _ _ _ _ _ _ _) as [[best s0]|] eqn:Hscan;
      [|done].
    cbn [mbind option_bind] in Hs1. unfold store_dtraj in Hs1.
    case_decide; [|done].
    injection Hs1 as <-. simpl in *.
    assert (to_int32 best.2 = assigned m chunk centers N_centers dim i) as Hv.
    { assert (<[i := to_int32 best.2]> (st_dtraj s0) !! i
              = <[i := assigned m chunk centers N_centers dim i]> (st_dtraj s) !! i)
        as Hv by (by rewrite Hdt1).
      rewrite !list_lookup_insert_eq in Hv by lia. by injection Hv. }
    apply scan_centers_log in Hscan. rewrite Hscan, <- app_assoc, Hv. done.
Qed.

End TraceFacts.

(** X7: the work of a successful serial call. On well-formed input
    with a known metric the call evaluates the distance of every frame to
    every centre exactly once, frame after frame and centre after centre,
    and stores one index per frame right after its scan. With minRMSD
    this is preceded by the allocation of two distinct blocks, which are
    the scratch pointers of every evaluation, and followed by their
    release; with the Euclidean metric nothing is allocated. The heap
    ends as it began. *)
Theorem serial_call_trace `{G : Geometry}
    m chunk centers N_frames N_centers dim n_threads s :
  well_formed chunk centers N_frames N_centers dim s →
  ∃ s' pre post buffer_a buffer_b,
    c_assign chunk centers (metric_name m) N_frames N_centers dim n_threads
      true true s = Some (ASSIGN_SUCCESS, s')
    ∧ st_heap s' = st_heap s
    ∧ st_log s'
      = st_log s ++ pre
        ++ serial_trace m chunk centers N_centers dim buffer_a buffer_b 0 N_frames
        ++ post
    ∧ match m with
      | Euclidean => buffer_a = None ∧ buffer_b = None ∧ pre = [] ∧ post = []
      | MinRMSD =>
          ∃ p q, p ≠ q ∧ st_heap s !! p = None ∧ st_heap s !! q = None
               ∧ buffer_a = Some p ∧ buffer_b = Some q
               ∧ pre = [EvMalloc dim (Some p); EvMalloc dim (Some q)]
               ∧ post = [EvFree p; EvFree q]
      end.
Proof.
  intros Hwf.
  destruct (c_assign_ok m chunk centers N_frames N_centers dim n_threads
              true true s Hwf) as (s' & Hs & _ & Hheap); [done|].
  destruct Hwf as (Hchunk & Hcenters & Hdt).
  pose proof Hs as Hcall. exists s'. unfold c_assign, c_assign_with in Hs.
  destruct m; cbn [metric_name] in Hs.
  - change (String.eqb "euclidean" "euclidean") with true in Hs. cbv iota in Hs.
    destruct (assign_frames_log Euclidean chunk centers N_frames N_centers dim
                None None Hchunk Hcenters N_frames 0 s)
      as (s1 & Hs1 & Hlog); [lia|lia|done|].
    rewrite Hs1 in Hs. cbn [mbind option_bind free] in Hs. injection Hs as <-.
    exists [], [], None, None. split; [exact Hcall|]. split; [done|].
    split; [|done]. by rewrite app_nil_r.
  - change (String.eqb "minRMSD" "euclidean") with false in Hs.
    change (String.eqb "minRMSD" "minRMSD") with true in Hs. cbv iota in Hs.
    destruct (malloc_pair dim s)
      as (p & q & s1 & s2 & Hma & Hmb & Hpq & Hp & Hq & Hh & Hd & Hl).
    rewrite Hma, Hmb in Hs. cbn [is_null orb] in Hs.
    destruct (assign_frames_log MinRMSD chunk centers N_frames N_centers dim
                (Some p) (Some q) Hchunk Hcenters N_frames 0 s2)
      as (s3 & Hs3 & Hlog); [lia|rewrite Hd; lia| |].
    { exists p, q, (replicate dim (S754_zero false)),
        (replicate dim (S754_zero false)).
      rewrite Hh, lookup_insert_ne, !lookup_insert_eq by done.
      rewrite !length_replicate. done. }
    rewrite Hs3 in Hs. cbn [mbind option_bind] in Hs. injection Hs as <-.
    exists [EvMalloc dim (Some p); EvMalloc dim (Some q)], [EvFree p; EvFree q],
      (Some p), (Some q).
    split; [exact Hcall|]. split; [done|]. split; [|by exists p, q].
    simpl. rewrite Hlog, Hl, <- !app_assoc. done.
Qed.

Lemma serial_call_trace_witness :
  ∃ s' pre post buffer_a buffer_b,
    c_assign (G := shift_geometry) (vec [0; 0; 0; 1; 1; 1]%Z) (vec [1; 1; 1]%Z)
      "minRMSD" 2 1 3 1 true true (init_state [7%Z; 7%Z])
    = Some (ASSIGN_SUCCESS, s')
    ∧ st_heap s' = ∅
    ∧ st_log s'
      = [] ++ pre
        ++ serial_trace (G := shift_geometry) MinRMSD (vec [0; 0; 0; 1; 1; 1]%Z)
             (vec [1; 1; 1]%Z) 1 3 buffer_a buffer_b 0 2
        ++ post
    ∧ ∃ p q, p ≠ q ∧ (∅ : gmap nat (list float32)) !! p = None
           ∧ (∅ : gmap nat (list float32)) !! q = None
           ∧ buffer_a = Some p ∧ buffer_b = Some q
           ∧ pre = [EvMalloc 3 (Some p); EvMalloc 3 (Some q)]
           ∧ post = [EvFree p; EvFree q].
Proof.
  apply (serial_call_trace (G := shift_geometry) MinRMSD
           (vec [0; 0; 0; 1; 1; 1]%Z) (vec [1; 1; 1]%Z) 2 1 3 1
           (init_state [7%Z; 7%Z])).
  repeat split; reflexivity.
Defined.

(** ** The empty batch *)

(** Membership in a list of events written out. *)
Ltac in_events :=
  intros;
  repeat match goal with
         | H : _ ∈ [] |- _ => by apply elem_of_nil in H
         | H : _ ∈ _ :: _ |- _ => apply elem_of_cons in H as [H|H]
         | H : ?e = _ |- is_alloc_event ?e => rewrite H; exact I
         end.

Section EmptyBatch.
Context `{G : Geometry}.

Lemma worker_step_idle m chunk centers N_centers dim buffer_a buffer_b id w s :
  idle w →
  ∃ w', worker_step m chunk centers N_centers dim buffer_a buffer_b id w s
        = Some (w', s) ∧ idle w'.
Proof.
  destruct w as [todo c i j best ta tb]. intros [Htodo Hpc]. simpl in *.
  subst todo. unfold worker_step. simpl.
  destruct Hpc as [-> | ->]; eexists; (split; [done|]); split; simpl; auto.
Qed.

Lemma omp_run_idle m chunk centers N_centers dim buffer_a buffer_b sched ws s :
  Forall idle ws →
  ∃ ws', omp_run m chunk centers N_centers dim buffer_a buffer_b sched (ws, s)
         = Some (ws', s) ∧ Forall idle ws'.
Proof.
  revert ws. induction sched as [|id sched IH]; intros ws Hidle.
  - by exists ws.
  - cbn [omp_run]. unfold omp_step. cbn [fst snd].
    destruct (ws !! id) as [w|] eqn:Hw.
    + destruct (worker_step_idle m chunk centers N_centers dim buffer_a buffer_b
                  id w s) as (w' & Hstep & Hw').
      { by eapply Forall_lookup_1. }
      rewrite Hstep. bind_step. apply IH. by apply Forall_insert.
    + bind_step. by apply IH.
Qed.

Lemma omp_region_empty chunk centers N_centers dim n_threads sched m
    buffer_a buffer_b s :
  0 < n_threads →
  omp_region chunk centers 0 N_centers dim n_threads sched m buffer_a buffer_b s
  = Some s.
Proof.
  intros Hn. rewrite omp_region_team by done.
  destruct (omp_run_idle m chunk centers N_centers dim buffer_a buffer_b
              (sched ++ omp_drain n_threads 0 N_centers)
              (init_worker n_threads 0 <$> seq 0 n_threads) s)
    as (ws' & Hrun & _).
  { apply Forall_fmap, Forall_forall. intros id _. split; [done|by left]. }
  by rewrite Hrun.
Qed.

(** A region that does nothing: the call succeeds and only allocates
    and releases. *)
Lemma c_assign_with_nothing region m dim s :
  (∀ m' ba bb s0, region m' ba bb s0 = Some s0) →
  ∃ s' l, c_assign_with region (metric_name m) dim true true s
          = Some (ASSIGN_SUCCESS, s')
        ∧ st_dtraj s' = st_dtraj s ∧ st_heap s' = st_heap s
        ∧ st_log s' = st_log s ++ l ∧ (∀ e, e ∈ l → is_alloc_event e).
Proof.
  intros Hregion. unfold c_assign_with. destruct m; cbn [metric_name].
  - change (String.eqb "euclidean" "euclidean") with true. cbv iota.
    rewrite Hregion. bind_step. exists s, []. cbn [free].
    rewrite app_nil_r. repeat split; try done.
    intros e He. by apply elem_of_nil in He.
  - change (String.eqb "minRMSD" "euclidean") with false.
    change (String.eqb "minRMSD" "minRMSD") with true. cbv iota.
    destruct (malloc_pair dim s)
      as (p & q & s1 & s2 & Hma & Hmb & Hpq & Hp & Hq & Hh & Hd & Hl).
    rewrite Hma, Hmb. cbn [is_null orb]. rewrite Hregion. bind_step.
    eexists _, [EvMalloc dim (Some p); EvMalloc dim (Some q); EvFree p; EvFree q].
    split; [done|]. simpl. split; [done|]. split.
    + apply free_pair_heap; [done..|]. intros r Hrp Hrq. rewrite Hh.
      by rewrite !lookup_insert_ne by done.
    + rewrite Hl, <- !app_assoc. split; [done|]. in_events.
Qed.

End EmptyBatch.

(** X8: the empty batch. With no frame and a known metric the call
    succeeds in the serial build and, for a team of at least one thread
    and every interleaving, in the OpenMP build, whatever the buffers
    hold: the output buffer and the heap are as before and the only
    events are allocations and releases (none with the Euclidean metric),
    so no distance is evaluated and nothing is stored. *)
Theorem empty_batch_succeeds `{G : Geometry}
    m chunk centers N_centers dim n_threads sched s :
  (∃ s' l, c_assign chunk centers (metric_name m) 0 N_centers dim n_threads
             true true s = Some (ASSIGN_SUCCESS, s')
         ∧ st_dtraj s' = st_dtraj s ∧ st_heap s' = st_heap s
         ∧ st_log s' = st_log s ++ l ∧ (∀ e, e ∈ l → is_alloc_event e))
  ∧ (0 < n_threads →
     ∃ s' l, c_assign_omp chunk centers (metric_name m) 0 N_centers dim
               n_threads sched true true s = Some (ASSIGN_SUCCESS, s')
           ∧ st_dtraj s' = st_dtraj s ∧ st_heap s' = st_heap s
           ∧ st_log s' = st_log s ++ l ∧ (∀ e, e ∈ l → is_alloc_event e)).
Proof.
  split.
  - apply c_assign_with_nothing. done.
  - intros Hn. apply c_assign_with_nothing.
    intros m' ba bb s0. by apply omp_region_empty.
Qed.

Lemma empty_batch_succeeds_witness :
  (∃ s' l, c_assign (G := shift_geometry) [] (vec [1; 2; 3]%Z) "minRMSD" 0 1 3 0
             true true (init_state [7%Z]) = Some (ASSIGN_SUCCESS, s')
         ∧ st_dtraj s' = [7%Z] ∧ st_heap s' = ∅
         ∧ st_log s' = [] ++ l ∧ (∀ e, e ∈ l → is_alloc_event e))
  ∧ (∃ s' l, c_assign_omp (G := shift_geometry) [] (vec [1; 2; 3]%Z) "minRMSD"
               0 1 3 2 [1; 0; 1] true true (init_state [7%Z])
             = Some (ASSIGN_SUCCESS, s')
           ∧ st_dtraj s' = [7%Z] ∧ st_heap s' = ∅
           ∧ st_log s' = [] ++ l ∧ (∀ e, e ∈ l → is_alloc_event e)).
Proof.
  split.
  - apply (proj1 (empty_batch_succeeds (G := shift_geometry) MinRMSD []
                    (vec [1; 2; 3]%Z) 1 3 0 [] (init_state [7%Z]))).
  - apply (proj2 (empty_batch_succeeds (G := shift_geometry) MinRMSD []
                    (vec [1; 2; 3]%Z) 1 3 2 [1; 0; 1] (init_state [7%Z]))).
    lia.
Defined.


(** ** Frames are assigned one by one *)

Section FrameLocality.
Context `{G : Geometry}.

Lemma take_le_take (a a' : list float32) k n :
  k ≤ n → take n a = take n a' → take k a = take k a'.
Proof.
  intros Hk Heq.
  rewrite <- (Nat.min_l k n), <- !take_take by done. by rewrite Heq.
Qed.

(** The distance depends on the frame through its [dim] components. *)
Lemma dist_value_frame m chunk chunk' centers dim i i' j :
  take dim (drop (i * dim) chunk) = take dim (drop (i' * dim) chunk') →
  dist_value m chunk centers dim i j = dist_value m chunk' centers dim i' j.
Proof.
  intros Heq. unfold dist_value. destruct m.
  - by apply euclidean_spec_take.
  - unfold minRMSD_value.
    pose proof (Nat.Div0.mul_div_le dim 3) as Hdiv.
    by rewrite (take_le_take _ _ (3 * (dim / 3)) dim Hdiv Heq).
Qed.

Lemma assigned_frame m chunk chunk' centers N_centers dim i i' :
  take dim (drop (i * dim) chunk) = take dim (drop (i' * dim) chunk') →
  assigned m chunk centers N_centers dim i
  = assigned m chunk' centers N_centers dim i'.
Proof.
  intros Heq. unfold assigned, distances. do 3 f_equal.
  apply list_fmap_ext. intros k j _. by apply dist_value_frame.
Qed.

Lemma assigned_app_l m chunk1 chunk2 centers N1 N_centers dim i :
  length chunk1 = N1 * dim → i < N1 →
  assigned m (chunk1 ++ chunk2) centers N_centers dim i
  = assigned m chunk1 centers N_centers dim i.
Proof.
  intros Hlen Hi. apply assigned_frame.
  rewrite drop_app_le by nia.
  apply take_app_le. rewrite length_drop. nia.
Qed.

Lemma assigned_app_r m chunk1 chunk2 centers N1 N_centers dim i :
  length chunk1 = N1 * dim →
  assigned m (chunk1 ++ chunk2) centers N_centers dim (N1 + i)
  = assigned m chunk2 centers N_centers dim i.
Proof.
  intros Hlen. apply assigned_frame.
  rewrite drop_app_ge by nia. do 2 f_equal. nia.
Qed.

End FrameLocality.

(** X9: a batch can be split. On well-formed inputs with a known
    metric, the serial call on the frames of two batches put one after
    the other writes what the two calls on the batches write, one after
    the other: the index of a frame depends on no other frame, nor on
    what the scratch buffers held after the frame before. *)
Theorem batch_can_be_split `{G : Geometry}
    m chunk1 chunk2 centers N1 N2 N_centers dim n_threads s s1 s2 :
  length chunk1 = N1 * dim → length chunk2 = N2 * dim →
  length centers = N_centers * dim →
  length (st_dtraj s) = N1 + N2 →
  length (st_dtraj s1) = N1 → length (st_dtraj s2) = N2 →
  ∃ r r1 r2,
    c_assign (chunk1 ++ chunk2) centers (metric_name m) (N1 + N2) N_centers dim
      n_threads true true s = Some (ASSIGN_SUCCESS, r)
    ∧ c_assign chunk1 centers (metric_name m) N1 N_centers dim
        n_threads true true s1 = Some (ASSIGN_SUCCESS, r1)
    ∧ c_assign chunk2 centers (metric_name m) N2 N_centers dim
        n_threads true true s2 = Some (ASSIGN_SUCCESS, r2)
    ∧ st_dtraj r = st_dtraj r1 ++ st_dtraj r2.
Proof.
  intros Hc1 Hc2 Hcenters Hs Hs1 Hs2.
  destruct (c_assign_ok m (chunk1 ++ chunk2) centers (N1 + N2) N_centers dim
              n_threads true true s) as (r & Hr & Hdr & _); [|done|].
  { split; [|done]. rewrite length_app. lia. }
  destruct (c_assign_ok m chunk1 centers N1 N_centers dim n_threads true true s1)
    as (r1 & Hr1 & Hdr1 & _); [done..|].
  destruct (c_assign_ok m chunk2 centers N2 N_centers dim n_threads true true s2)
    as (r2 & Hr2 & Hdr2 & _); [done..|].
  exists r, r1, r2. split; [done|]. split; [done|]. split; [done|].
  assert (seq (0 + N1) N2 = Nat.add N1 <$> seq 0 N2) as Hseq.
  { by rewrite fmap_add_seq, Nat.add_comm. }
  rewrite Hdr, Hdr1, Hdr2, seq_app, fmap_app, Hseq. f_equal.
  - apply list_fmap_ext. intros k i Hi. apply lookup_seq in Hi as [-> Hi].
    by eapply assigned_app_l.
  - rewrite <- list_fmap_compose.
    apply list_fmap_ext. intros k i _. simpl. by eapply assigned_app_r.
Qed.

Lemma batch_can_be_split_witness :
  ∃ r r1 r2,
    c_assign (G := shift_geometry) (vec [0; 0; 0; 2; 0; 0]%Z ++ vec [0; 0; 0; 0; 4; 0]%Z)
      race_centers "minRMSD" (1 + 1) 2 6 1 true true (init_state [7%Z; 7%Z])
    = Some (ASSIGN_SUCCESS, r)
    ∧ c_assign (G := shift_geometry) (vec [0; 0; 0; 2; 0; 0]%Z)
        race_centers "minRMSD" 1 2 6 1 true true (init_state [7%Z])
      = Some (ASSIGN_SUCCESS, r1)
    ∧ c_assign (G := shift_geometry) (vec [0; 0; 0; 0; 4; 0]%Z)
        race_centers "minRMSD" 1 2 6 1 true true (init_state [8%Z])
      = Some (ASSIGN_SUCCESS, r2)
    ∧ st_dtraj r = st_dtraj r1 ++ st_dtraj r2.
Proof.
  apply (batch_can_be_split (G := shift_geometry) MinRMSD
           (vec [0; 0; 0; 2; 0; 0]%Z) (vec [0; 0; 0; 0; 4; 0]%Z) race_centers
           1 1 2 6 1 (init_state [7%Z; 7%Z]) (init_state [7%Z]) (init_state [8%Z]));
    reflexivity.
Defined.

(** X10: minRMSD works on whole points. For any [n], the value
    [minRMSD_distance] returns depends on each vector through its first
    [3*(n/3)] components only: the last [n mod 3] components are copied
    and then ignored, nothing beyond the [n] floats is read, and what the
    scratch buffers held before the call does not matter. *)
Theorem minRMSD_distance_uses_whole_points `{G : Geometry}
    (a b a' b' x y x' y' : list float32) n p q p' q'
    (h h' : gmap nat (list float32)) :
  p ≠ q → h !! p = Some x → h !! q = Some y →
  p' ≠ q' → h' !! p' = Some x' → h' !! q' = Some y' →
  n ≤ length a → n ≤ length b → n ≤ length x → n ≤ length y →
  n ≤ length a' → n ≤ length b' → n ≤ length x' → n ≤ length y' →
  take (3 * (n / 3)) a = take (3 * (n / 3)) a' →
  take (3 * (n / 3)) b = take (3 * (n / 3)) b' →
  ∃ d r r', minRMSD_distance a b n (Some p) (Some q) h = Some (d, r)
          ∧ minRMSD_distance a' b' n (Some p') (Some q') h' = Some (d, r').
Proof.
  intros Hpq Hp Hq Hpq' Hp' Hq' Ha Hb Hx Hy Ha' Hb' Hx' Hy' Haa Hbb.
  rewrite (minRMSD_distance_eq a b x y n p q h) by done.
  rewrite (minRMSD_distance_eq a' b' x' y' n p' q' h') by done.
  eexists _, _, _. split; [done|]. unfold minRMSD_value. by rewrite Haa, Hbb.
Qed.

Lemma minRMSD_distance_uses_whole_points_witness :
  ∃ d r r',
    minRMSD_distance (G := shift_geometry)
      (vec [0; 0; 0; 2; 0; 0; 5]%Z) (vec [0; 0; 0; 0; 4; 0; 6]%Z) 7
      (Some 0) (Some 1)
      (<[1 := vec [9; 9; 9; 9; 9; 9; 9]%Z]> (<[0 := vec [8; 8; 8; 8; 8; 8; 8]%Z]> ∅))
    = Some (d, r)
    ∧ minRMSD_distance (G := shift_geometry)
        (vec [0; 0; 0; 2; 0; 0; -7]%Z) (vec [0; 0; 0; 0; 4; 0; 1]%Z) 7
        (Some 3) (Some 2)
        (<[2 := vec [1; 2; 3; 4; 5; 6; 7; 8]%Z]> (<[3 := vec [0; 0; 0; 0; 0; 0; 0]%Z]> ∅))
      = Some (d, r').
Proof.
  apply (minRMSD_distance_uses_whole_points (G := shift_geometry)
           (vec [0; 0; 0; 2; 0; 0; 5]%Z) (vec [0; 0; 0; 0; 4; 0; 6]%Z)
           (vec [0; 0; 0; 2; 0; 0; -7]%Z) (vec [0; 0; 0; 0; 4; 0; 1]%Z)
           (vec [8; 8; 8; 8; 8; 8; 8]%Z) (vec [9; 9; 9; 9; 9; 9; 9]%Z)
           (vec [0; 0; 0; 0; 0; 0; 0]%Z) (vec [1; 2; 3; 4; 5; 6; 7; 8]%Z)
           7 0 1 3 2);
    try reflexivity; try discriminate; simpl; lia.
Defined.

(** X11: with the Euclidean metric the OpenMP build is as good as the
    serial one. On well-formed input, for every number of workers (at
    least one) and every interleaving of their statements, both builds
    succeed and leave the same output buffer and the same heap. *)
Theorem openmp_euclidean_matches_serial `{G : Geometry}
    chunk centers N_frames N_centers dim n_threads sched ok_a ok_b s :
  well_formed chunk centers N_frames N_centers dim s → 0 < n_threads →
  ∃ s' t', c_assign_omp chunk centers "euclidean" N_frames N_centers dim
             n_threads sched ok_a ok_b s = Some (ASSIGN_SUCCESS, s')
         ∧ c_assign chunk centers "euclidean" N_frames N_centers dim
             n_threads ok_a ok_b s = Some (ASSIGN_SUCCESS, t')
         ∧ st_dtraj s' = st_dtraj t' ∧ st_heap s' = st_heap t'.
Proof. apply c_assign_omp_euclidean. Qed.

Lemma openmp_euclidean_matches_serial_witness :
  ∃ s' t', c_assign_omp (G := shift_geometry) race_chunk race_centers "euclidean"
             11 2 6 3 [2; 0; 1; 1; 0; 2; 2; 7; 1] false false
             (init_state (replicate 11 7%Z)) = Some (ASSIGN_SUCCESS, s')
         ∧ c_assign (G := shift_geometry) race_chunk race_centers "euclidean"
             11 2 6 3 false false (init_state (replicate 11 7%Z))
           = Some (ASSIGN_SUCCESS, t')
         ∧ st_dtraj s' = st_dtraj t' ∧ st_heap s' = st_heap t'.
Proof.
  apply (openmp_euclidean_matches_serial (G := shift_geometry)
           race_chunk race_centers 11 2 6 3 [2; 0; 1; 1; 0; 2; 2; 7; 1] false false
           (init_state (replicate 11 7%Z))).
  - repeat split; reflexivity.
  - lia.
Defined.

(** ** The entry point [assign] *)

Section AssignFacts.
Context `{G : Geometry}.

Lemma only_allocated_refl s : only_allocated s s.
Proof.
  split; [done|]. split; [done|]. exists []. rewrite app_nil_r.
  split; [done|]. intros e He. by apply elem_of_nil in He.
Qed.

(** A call of [c_assign] that does not succeed changes nothing. *)
Lemma c_assign_with_failure region metric dim ok_a ok_b s st s' :
  c_assign_with region metric dim ok_a ok_b s = Some (st, s') →
  st ≠ ASSIGN_SUCCESS →
  only_allocated s s'
  ∧ (st = ASSIGN_ERR_INVALID_METRIC → s' = s ∧ metric ≠ "euclidean"
                                      ∧ metric ≠ "minRMSD")
  ∧ (st = ASSIGN_ERR_NO_MEMORY →
     metric = "minRMSD" ∧ (ok_a = false ∨ ok_b = false)).
Proof.
  intros Hcall Hst.
  destruct (String.eqb metric "euclidean") eqn:He.
  { unfold c_assign_with in Hcall. rewrite He in Hcall.
    destruct (region _ _ _ _); simpl in Hcall; [|done].
    by injection Hcall as <- <-. }
  destruct (String.eqb metric "minRMSD") eqn:Hm.
  - apply String.eqb_eq in Hm as ->.
    destruct ok_a, ok_b.
    + unfold c_assign_with in Hcall.
      change (String.eqb "minRMSD" "euclidean") with false in Hcall.
      change (String.eqb "minRMSD" "minRMSD") with true in Hcall.
      cbv iota in Hcall.
      destruct (malloc_pair dim s) as (p & q & s1 & s2 & Hma & Hmb & _).
      rewrite Hma, Hmb in Hcall. cbn [is_null orb] in Hcall.
      destruct (region _ _ _ _); simpl in Hcall; [|done].
      by injection Hcall as <- <-.
    + destruct (c_assign_with_no_memory region dim true false s)
        as (s'' & l & Hc & Hd & Hh & Hl & Hev & _); [by right|].
      rewrite Hc in Hcall. injection Hcall as <- <-.
      split; [|split; [done|auto]]. split; [done|]. split; [done|]. by exists l.
    + destruct (c_assign_with_no_memory region dim false true s)
        as (s'' & l & Hc & Hd & Hh & Hl & Hev & _); [by left|].
      rewrite Hc in Hcall. injection Hcall as <- <-.
      split; [|split; [done|auto]]. split; [done|]. split; [done|]. by exists l.
    + destruct (c_assign_with_no_memory region dim false false s)
        as (s'' & l & Hc & Hd & Hh & Hl & Hev & _); [by left|].
      rewrite Hc in Hcall. injection Hcall as <- <-.
      split; [|split; [done|auto]]. split; [done|]. split; [done|]. by exists l.
  - apply String.eqb_neq in He. apply String.eqb_neq in Hm.
    rewrite c_assign_with_unknown in Hcall by done. injection Hcall as <- <-.
    split; [apply only_allocated_refl|]. split; [done|]. done.
Qed.

(** The outcome of [assign]: an error of a test that comes before the
    conversion of the centres or of the conversion itself, with the
    state untouched; an error of a test on the converted centres, with
    the reference to them in hand; or the outcome of the engine on
    accepted arrays, with that reference in hand too. *)
Lemma assign_with_cases engine np_chunk chunk py_centers np_dtraj metric n_threads
    ok_a ok_b s r s' :
  assign_with engine np_chunk chunk py_centers np_dtraj metric n_threads
    ok_a ok_b s = Some (r, s') →
  (∃ e, r = Py_raise e ∧ s' = s ∧ holds_centres r = false ∧ e ≠ ErrDtrajSize)
  ∨ (∃ a e, py_centers = Some a ∧ r = Py_raise e
          ∧ (e = ErrCentersEmpty ∨ e = ErrCentersDim)
          ∧ s' = {| py_c := py_c s; py_owned := a :: py_owned s |})
  ∨ ∃ c centers N_frames N_centers dim st c',
      py_centers = Some (c, centers)
      ∧ accepted np_chunk py_centers np_dtraj centers N_frames N_centers dim
      ∧ engine chunk centers metric N_frames N_centers dim n_threads ok_a ok_b
          (py_c s) = Some (st, c')
      ∧ s' = {| py_c := c'; py_owned := (c, centers) :: py_owned s |}
      ∧ r = match st with
            | ASSIGN_SUCCESS => Py_None
            | ASSIGN_ERR_NO_MEMORY => Py_raise ErrNoMemory
            | ASSIGN_ERR_INVALID_METRIC => Py_raise ErrMetric
            end.
Proof.
  unfold assign_with. intros Hcall.
  destruct (nd_type np_chunk) eqn:Ht; simpl in Hcall;
    try (injection Hcall as <- <-; left; by eexists).
  destruct (nd_iscarray_ro np_chunk) eqn:Hc; simpl in Hcall;
    [|injection Hcall as <- <-; left; by eexists].
  destruct (Nat.eqb (nd_ndim np_chunk) 2) eqn:Hn; simpl in Hcall;
    [|injection Hcall as <- <-; left; by eexists].
  apply Nat.eqb_eq in Hn.
  destruct (nd_dimensions np_chunk !! 0) as [N_frames|] eqn:H0; simpl in Hcall;
    [|done].
  destruct (nd_dimensions np_chunk !! 1) as [dim|] eqn:H1; simpl in Hcall;
    [|done].
  destruct (Nat.eqb dim 0) eqn:Hd; [injection Hcall as <- <-; left; by eexists|].
  apply Nat.eqb_neq in Hd.
  destruct (nd_type np_dtraj) eqn:Htd; simpl in Hcall;
    try (injection Hcall as <- <-; left; by eexists).
  destruct (nd_isbehaved_ro np_dtraj) eqn:Hbd; simpl in Hcall;
    [|injection Hcall as <- <-; left; by eexists].
  destruct (Nat.eqb (nd_ndim np_dtraj) 1) eqn:Hnd; simpl in Hcall;
    [|injection Hcall as <- <-; left; by eexists].
  apply Nat.eqb_eq in Hnd.
  rewrite Nat.eqb_refl in Hcall. simpl in Hcall.
  destruct py_centers as [[c centers]|]; simpl in Hcall;
    [|injection Hcall as <- <-; left; by eexists].
  destruct (nd_dimensions c !! 0) as [N_centers|] eqn:Hc0; simpl in Hcall; [|done].
  destruct (Nat.eqb N_centers 0) eqn:Hnc.
  { injection Hcall as <- <-. right; left.
    exists (c, centers), ErrCentersEmpty. repeat split; auto. }
  apply Nat.eqb_neq in Hnc.
  destruct (nd_dimensions c !! 1) as [d1|] eqn:Hc1; simpl in Hcall; [|done].
  destruct (Nat.eqb d1 dim) eqn:Hd1; simpl in Hcall.
  2:{ injection Hcall as <- <-. right; left.
      exists (c, centers), ErrCentersDim. repeat split; auto. }
  apply Nat.eqb_eq in Hd1 as ->.
  destruct (engine _ _ _ _ _ _ _ _ _ _) as [[st c']|] eqn:Heng; simpl in Hcall;
    [|done].
  right; right. exists c, centers, N_frames, N_centers, dim, st, c'.
  split; [done|]. split; [|split; [done|]].
  - repeat split; try done. by exists c.
  - destruct st; injection Hcall as <- <-; done.
Qed.

(** On accepted arrays [assign] is the engine, run with the reference
    to the converted centres in hand. *)
Lemma assign_with_accepted engine np_chunk chunk py_centers np_dtraj metric
    n_threads ok_a ok_b s centers N_frames N_centers dim :
  accepted np_chunk py_centers np_dtraj centers N_frames N_centers dim →
  ∃ c, py_centers = Some (c, centers)
     ∧ assign_with engine np_chunk chunk py_centers np_dtraj metric n_threads
         ok_a ok_b s
       = '(st, c') ← engine chunk centers metric N_frames N_centers dim n_threads
                       ok_a ok_b (py_c s);
         Some (match st with
               | ASSIGN_SUCCESS => Py_None
               | ASSIGN_ERR_NO_MEMORY => Py_raise ErrNoMemory
               | ASSIGN_ERR_INVALID_METRIC => Py_raise ErrMetric
               end,
               {| py_c := c'; py_owned := (c, centers) :: py_owned s |}).
Proof.
  intros (Ht & Hc & Hn & H0 & H1 & Hd & Htd & Hbd & Hnd & c & -> & Hc0 & Hnc & Hc1).
  exists c. split; [done|].
  unfold assign_with. rewrite Ht, Hc, Hn, H0, H1, Htd, Hbd, Hnd. simpl.
  rewrite Hc0, Hc1. simpl.
  apply Nat.eqb_neq in Hd. apply Nat.eqb_neq in Hnc.
  rewrite Hd, Hnc, !Nat.eqb_refl. simpl.
  destruct (engine _ _ _ _ _ _ _ _ _ _) as [[[] s0]|]; done.
Qed.

(** The reference to the converted centres is in hand at every return
    that comes after the conversion, and no other reference is. *)
Lemma assign_with_owned engine np_chunk chunk py_centers np_dtraj metric
    n_threads ok_a ok_b s r s' :
  assign_with engine np_chunk chunk py_centers np_dtraj metric n_threads
    ok_a ok_b s = Some (r, s') →
  if holds_centres r then keeps_centres py_centers s s'
  else py_owned s' = py_owned s.
Proof.
  intros Hcall.
  apply assign_with_cases in Hcall
    as [(e & -> & -> & Hh & _)
       |[(a & e & Ha & -> & He & ->)
        |(c & centers & Nf & Nc & dim & st & c' & Hc & _ & _ & -> & ->)]].
  - by rewrite Hh.
  - destruct He as [-> | ->]; by exists a.
  - destruct st; by exists (c, centers).
Qed.

End AssignFacts.

(** ** An output buffer of another size *)

Section DtrajSize.
Context `{G : Geometry}.
Variables (m : metric_fn) (chunk centers : list float32).
Variables (N_frames N_centers dim : nat) (buffer_a buffer_b : option nat).
Hypothesis Hchunk : length chunk = N_frames * dim.
Hypothesis Hcenters : length centers = N_centers * dim.

(** The loop stores beyond the end of a buffer that is too short. *)
Lemma assign_frames_short k i s :
  i + k ≤ N_frames → i ≤ length (st_dtraj s) → length (st_dtraj s) < i + k →
  scratch_ok m dim buffer_a buffer_b (st_heap s) →
  assign_frames m chunk centers N_centers dim buffer_a buffer_b k i s = None.
Proof.
  revert i s. induction k as [|k IH]; intros i s Hik Hi Hlen Hok; [lia|].
  cbn [assign_frames].
  destruct (decide (i < length (st_dtraj s))) as [Hlt|Hge].
  - destruct (assign_frame_ok m chunk centers N_frames N_centers dim
                buffer_a buffer_b Hchunk Hcenters 0 i s)
      as (s1 & Hs1 & Hdt1 & Hok1 & _); [lia|done|done|].
    rewrite Hs1. bind_step.
    apply IH; [lia| | |done]; rewrite Hdt1, length_insert; lia.
  - unfold assign_frame.
    destruct (scan_centers_ok m chunk centers N_frames N_centers dim
                buffer_a buffer_b Hchunk Hcenters 0 i N_centers 0
                (FLT_MAX, to_size_t (-1)) s)
      as (s1 & Hs1 & Hdt1 & _); [lia|lia|done|].
    rewrite Hs1. bind_step. unfold store_dtraj.
    rewrite decide_False by (rewrite Hdt1; lia). done.
Qed.

End DtrajSize.

Section DtrajSizeCall.
Context `{G : Geometry}.

Lemma malloc_pair_ok dim s :
  ∃ p q s1 s2,
    malloc true dim s = (Some p, s1) ∧ malloc true dim s1 = (Some q, s2)
    ∧ st_heap s !! p = None ∧ st_heap s !! q = None
    ∧ st_dtraj s2 = st_dtraj s
    ∧ scratch_ok MinRMSD dim (Some p) (Some q) (st_heap s2)
    ∧ ∀ r, r ≠ p → r ≠ q → st_heap s2 !! r = st_heap s !! r.
Proof.
  destruct (malloc_pair dim s)
    as (p & q & s1 & s2 & Hma & Hmb & Hpq & Hp & Hq & Hh & Hd & _).
  exists p, q, s1, s2. repeat split; try done.
  - exists p, q, (replicate dim (S754_zero false)),
      (replicate dim (S754_zero false)).
    rewrite Hh, lookup_insert_ne, !lookup_insert_eq by done.
    rewrite !length_replicate. done.
  - intros r Hrp Hrq. rewrite Hh. by rewrite !lookup_insert_ne by done.
Qed.

(** A buffer with room to spare: the first [N_frames] slots are
    written, the others keep their content. *)
Lemma c_assign_ok_longer m chunk centers N_frames N_centers dim n_threads s :
  length chunk = N_frames * dim → length centers = N_centers * dim →
  N_frames ≤ length (st_dtraj s) →
  ∃ s', c_assign chunk centers (metric_name m) N_frames N_centers dim n_threads
          true true s = Some (ASSIGN_SUCCESS, s')
      ∧ st_dtraj s'
        = (assigned m chunk centers N_centers dim <$> seq 0 N_frames)
          ++ drop N_frames (st_dtraj s)
      ∧ st_heap s' = st_heap s.
Proof.
  intros Hchunk Hcenters Hlen.
  unfold c_assign, c_assign_with. destruct m; cbn [metric_name].
  - change (String.eqb "euclidean" "euclidean") with true. cbv iota.
    destruct (assign_frames_ok Euclidean chunk centers N_frames N_centers dim
                None None Hchunk Hcenters N_frames 0 s)
      as (s' & Hs & Hdt' & _ & Hfr); [lia|lia|done|].
    rewrite Hs. bind_step. exists s'. split; [done|]. split; [done|].
    apply map_eq. intros r. by apply Hfr.
  - change (String.eqb "minRMSD" "euclidean") with false.
    change (String.eqb "minRMSD" "minRMSD") with true. cbv iota.
    destruct (malloc_pair_ok dim s)
      as (p & q & s1 & s2 & Hma & Hmb & Hp & Hq & Hd & Hok & Hh).
    rewrite Hma, Hmb. cbn [is_null orb].
    destruct (assign_frames_ok MinRMSD chunk centers N_frames N_centers dim
                (Some p) (Some q) Hchunk Hcenters N_frames 0 s2)
      as (s' & Hs & Hdt' & _ & Hfr); [lia|rewrite Hd; lia|done|].
    rewrite Hs. bind_step. eexists. split; [done|]. simpl. split.
    + by rewrite Hdt', Hd.
    + apply free_pair_heap; [done..|]. intros r Hrp Hrq.
      rewrite Hfr by congruence. by apply Hh.
Qed.

(** A buffer that is too short: the call is undefined. *)
Lemma c_assign_short m chunk centers N_frames N_centers dim n_threads s :
  length chunk = N_frames * dim → length centers = N_centers * dim →
  length (st_dtraj s) < N_frames →
  c_assign chunk centers (metric_name m) N_frames N_centers dim n_threads
    true true s = None.
Proof.
  intros Hchunk Hcenters Hlen.
  unfold c_assign, c_assign_with. destruct m; cbn [metric_name].
  - change (String.eqb "euclidean" "euclidean") with true. cbv iota.
    rewrite (assign_frames_short Euclidean chunk centers N_frames N_centers dim
               None None Hchunk Hcenters); [done|lia|lia|lia|done].
  - change (String.eqb "minRMSD" "euclidean") with false.
    change (String.eqb "minRMSD" "minRMSD") with true. cbv iota.
    destruct (malloc_pair_ok dim s)
      as (p & q & s1 & s2 & Hma & Hmb & Hp & Hq & Hd & Hok & Hh).
    rewrite Hma, Hmb. cbn [is_null orb].
    rewrite (assign_frames_short MinRMSD chunk centers N_frames N_centers dim
               (Some p) (Some q) Hchunk Hcenters);
      [done|lia|lia|rewrite Hd; lia|done].
Qed.

End DtrajSizeCall.

(** X12: an error of [assign] changes no data. Whenever [assign]
    raises, in the serial or in the OpenMP build, the output buffer and
    the scratch heap are as before the call and no distance was
    evaluated; the memory of the engine is exactly the one before unless
    the error is the memory error, where the allocation that succeeded,
    if any, was released. The reference to the converted centres is
    another matter: an error raised once the conversion has succeeded
    (no centre, another dimension, unknown metric, no memory) returns
    with that reference still owned; an earlier error changes nothing at
    all. *)
Theorem assign_error_changes_no_data `{G : Geometry}
    np_chunk chunk py_centers np_dtraj metric n_threads sched ok_a ok_b s e s' :
  assign np_chunk chunk py_centers np_dtraj metric n_threads ok_a ok_b s
  = Some (Py_raise e, s')
  ∨ assign_omp sched np_chunk chunk py_centers np_dtraj metric n_threads
      ok_a ok_b s = Some (Py_raise e, s') →
  only_allocated (py_c s) (py_c s')
  ∧ (e ≠ ErrNoMemory → py_c s' = py_c s)
  ∧ if holds_centres (Py_raise e) then keeps_centres py_centers s s'
    else s' = s.
Proof.
  intros Hcall.
  assert (∃ engine,
    assign_with engine np_chunk chunk py_centers np_dtraj metric n_threads
      ok_a ok_b s = Some (Py_raise e, s')
    ∧ ∀ chunk centers metric Nf Nc dim nt oa ob s0 st s1,
        engine chunk centers metric Nf Nc dim nt oa ob s0 = Some (st, s1) →
        st ≠ ASSIGN_SUCCESS →
        only_allocated s0 s1 ∧ (st = ASSIGN_ERR_INVALID_METRIC → s1 = s0))
    as (engine & Hwith & Hengine).
  { destruct Hcall as [Hcall|Hcall]; eexists; (split; [exact Hcall|]).
    - intros ? ? ? ? ? ? ? ? ? ? ? ? Hc Hst.
      apply c_assign_with_failure in Hc as (Hal & Hinv & _); [|done].
      split; [done|]. intros Heq. by apply Hinv.
    - intros ? ? ? ? ? ? ? ? ? ? ? ? Hc Hst.
      apply c_assign_with_failure in Hc as (Hal & Hinv & _); [|done].
      split; [done|]. intros Heq. by apply Hinv. }
  pose proof (assign_with_owned _ _ _ _ _ _ _ _ _ _ _ _ Hwith) as Hown.
  apply assign_with_cases in Hwith
    as [(e' & [= <-] & -> & Hh & _)
       |[(a & e' & Ha & [= <-] & He & ->)
        |(c & centers & Nf & Nc & dim & st & c' & Hc & _ & Heng & -> & Hr)]].
  - rewrite Hh. split; [apply only_allocated_refl|done].
  - split; [apply only_allocated_refl|]. split; [done|].
    destruct He as [-> | ->]; by exists a.
  - destruct st; try done.
    + injection Hr as ->.
      destruct (Hengine _ _ _ _ _ _ _ _ _ _ _ _ Heng) as [Hal _]; done.
    + injection Hr as ->.
      destruct (Hengine _ _ _ _ _ _ _ _ _ _ _ _ Heng) as [Hal Hsame]; [done|].
      split; [done|]. split; [|done]. intros _. by apply Hsame.
Qed.

Lemma assign_error_changes_no_data_witness :
  only_allocated (init_state [7%Z])
    {| st_dtraj := [7%Z]; st_heap := ∅;
       st_log := [EvMalloc 3 None; EvMalloc 3 (Some 0); EvFree 0] |}
  ∧ (ErrNoMemory ≠ ErrNoMemory →
     {| st_dtraj := [7%Z]; st_heap := ∅;
        st_log := [EvMalloc 3 None; EvMalloc 3 (Some 0); EvFree 0] |}
     = init_state [7%Z])
  ∧ keeps_centres (Some (float_matrix 1 3, vec [1; 1; 1]%Z)) (py_init [7%Z])
      {| py_c := {| st_dtraj := [7%Z]; st_heap := ∅;
                    st_log := [EvMalloc 3 None; EvMalloc 3 (Some 0); EvFree 0] |};
         py_owned := [(float_matrix 1 3, vec [1; 1; 1]%Z)] |}.
Proof.
  apply (assign_error_changes_no_data (G := shift_geometry)
           (float_matrix 1 3) (vec [0; 0; 0]%Z)
           (Some (float_matrix 1 3, vec [1; 1; 1]%Z)) (int_vector 1)
           "minRMSD" 2 [1; 0] false true (py_init [7%Z]) ErrNoMemory
           {| py_c := {| st_dtraj := [7%Z]; st_heap := ∅;
                         st_log := [EvMalloc 3 None; EvMalloc 3 (Some 0);
                                    EvFree 0] |};
              py_owned := [(float_matrix 1 3, vec [1; 1; 1]%Z)] |}).
  left. vm_compute. reflexivity.
Defined.

(** X13: [assign] never reports that the size of [dtraj] differs from
    the number of frames. The test compares the first dimension of the
    chunk with itself, so with any engine plugged in and on any input the
    error is not raised: the size of the output array is never
    examined. *)
Theorem assign_never_reports_dtraj_size
    engine np_chunk chunk py_centers np_dtraj metric n_threads ok_a ok_b s s' :
  assign_with engine np_chunk chunk py_centers np_dtraj metric n_threads
    ok_a ok_b s ≠ Some (Py_raise ErrDtrajSize, s').
Proof.
  intros Hcall.
  apply assign_with_cases in Hcall
    as [(e & [= <-] & _ & _ & Hne)
       |[(a & e & _ & [= <-] & [He|He] & _)
        |(? & ? & ? & ? & ? & st & ? & _ & _ & _ & _ & Hr)]]; try done.
  by destruct st.
Qed.

(** X14: what [assign] does on arrays it accepts whose data have the
    announced sizes, with a known metric: it returns None, the first
    [N_frames] slots of the output buffer hold the index each scan ends
    with, and the scratch heap of the engine is as before. The buffer
    may be longer than the number of frames: the slots beyond keep their
    content. The reference to the converted centres is still owned when
    the call returns: it is not given back. *)
Theorem assign_fills_first_frames `{G : Geometry}
    m np_chunk chunk py_centers np_dtraj centers N_frames N_centers dim
    n_threads s :
  accepted np_chunk py_centers np_dtraj centers N_frames N_centers dim →
  length chunk = N_frames * dim → length centers = N_centers * dim →
  N_frames ≤ length (st_dtraj (py_c s)) →
  ∃ s', assign np_chunk chunk py_centers np_dtraj (metric_name m) n_threads
          true true s = Some (Py_None, s')
      ∧ st_dtraj (py_c s')
        = (assigned m chunk centers N_centers dim <$> seq 0 N_frames)
          ++ drop N_frames (st_dtraj (py_c s))
      ∧ st_heap (py_c s') = st_heap (py_c s)
      ∧ keeps_centres py_centers s s'.
Proof.
  intros Hacc Hchunk Hcenters Hlen.
  destruct (c_assign_ok_longer m chunk centers N_frames N_centers dim n_threads
              (py_c s)) as (c' & Hs & Hdt & Hheap); [done..|].
  destruct (assign_with_accepted c_assign np_chunk chunk py_centers np_dtraj
              (metric_name m) n_threads true true s centers N_frames N_centers
              dim Hacc) as (c & Hc & Hcall).
  eexists. unfold assign. rewrite Hcall, Hs. bind_step.
  split; [done|]. split; [done|]. split; [done|]. by exists (c, centers).
Qed.

Lemma assign_fills_first_frames_witness :
  ∃ s', assign (G := shift_geometry) (float_matrix 2 2) (vec [4; 4; 0; 1]%Z)
          (Some (float_matrix 2 2, vec [0; 0; 3; 4]%Z)) (int_vector 3)
          "euclidean" 1 true true (py_init [7%Z; 7%Z; 7%Z])
        = Some (Py_None, s')
      ∧ st_dtraj (py_c s')
        = (assigned (G := shift_geometry) Euclidean (vec [4; 4; 0; 1]%Z)
             (vec [0; 0; 3; 4]%Z) 2 2 <$> seq 0 2)
          ++ drop 2 [7%Z; 7%Z; 7%Z]
      ∧ st_heap (py_c s') = ∅
      ∧ keeps_centres (Some (float_matrix 2 2, vec [0; 0; 3; 4]%Z))
          (py_init [7%Z; 7%Z; 7%Z]) s'.
Proof.
  apply (assign_fills_first_frames (G := shift_geometry) Euclidean
           (float_matrix 2 2) (vec [4; 4; 0; 1]%Z)
           (Some (float_matrix 2 2, vec [0; 0; 3; 4]%Z)) (int_vector 3)
           (vec [0; 0; 3; 4]%Z) 2 2 2 1 (py_init [7%Z; 7%Z; 7%Z])).
  - repeat split; try reflexivity; try discriminate.
    eexists. repeat split; try reflexivity. discriminate.
  - reflexivity.
  - reflexivity.
  - simpl. lia.
Defined.

(** X15: [assign] returns None only on validated input. If the call
    returns None then every test passed: the arrays are accepted, with
    [dim] and the number of centres not zero and equal dimensions of
    frames and centres, the metric name is one of the two known ones, and
    the engine succeeded on exactly these sizes; the state returned is
    the one the engine left, with the reference to the converted centres
    added. *)
Theorem assign_none_only_if_valid `{G : Geometry}
    np_chunk chunk py_centers np_dtraj metric n_threads ok_a ok_b s s' :
  assign np_chunk chunk py_centers np_dtraj metric n_threads ok_a ok_b s
  = Some (Py_None, s') →
  ∃ centers N_frames N_centers dim,
    accepted np_chunk py_centers np_dtraj centers N_frames N_centers dim
    ∧ (metric = "euclidean" ∨ metric = "minRMSD")
    ∧ c_assign chunk centers metric N_frames N_centers dim n_threads ok_a ok_b
        (py_c s) = Some (ASSIGN_SUCCESS, py_c s')
    ∧ keeps_centres py_centers s s'.
Proof.
  intros Hcall. unfold assign in Hcall.
  apply assign_with_cases in Hcall
    as [(e & [=] & _)
       |[(a & e & _ & [=] & _)
        |(c & centers & Nf & Nc & dim & st & c' & Hc & Hacc & Heng & -> & Hr)]].
  destruct st; try done.
  exists centers, Nf, Nc, dim. split; [done|].
  split; [|split; [done|by exists (c, centers)]].
  destruct (decide (metric = "euclidean")) as [|Hne]; [by left|].
  destruct (decide (metric = "minRMSD")) as [|Hnm]; [by right|].
  unfold c_assign in Heng. by rewrite c_assign_with_unknown in Heng.
Qed.

Lemma assign_none_only_if_valid_witness :
  ∃ centers N_frames N_centers dim,
    accepted (float_matrix 1 2) (Some (float_matrix 2 2, vec [0; 0; 3; 4]%Z))
      (int_vector 1) centers N_frames N_centers dim
    ∧ ("euclidean" = "euclidean" ∨ "euclidean" = "minRMSD")
    ∧ c_assign (G := shift_geometry) (vec [4; 4]%Z) centers "euclidean"
        N_frames N_centers dim 1 true true (init_state [7%Z])
      = Some (ASSIGN_SUCCESS,
              {| st_dtraj := [1%Z]; st_heap := ∅;
                 st_log := [EvDistance 0 0 0 None None;
                            EvDistance 0 0 1 None None; EvStore 0 0 1] |})
    ∧ keeps_centres (Some (float_matrix 2 2, vec [0; 0; 3; 4]%Z)) (py_init [7%Z])
        {| py_c := {| st_dtraj := [1%Z]; st_heap := ∅;
                      st_log := [EvDistance 0 0 0 None None;
                                 EvDistance 0 0 1 None None; EvStore 0 0 1] |};
           py_owned := [(float_matrix 2 2, vec [0; 0; 3; 4]%Z)] |}.
Proof.
  apply (assign_none_only_if_valid (G := shift_geometry)
           (float_matrix 1 2) (vec [4; 4]%Z)
           (Some (float_matrix 2 2, vec [0; 0; 3; 4]%Z)) (int_vector 1)
           "euclidean" 1 true true (py_init [7%Z])
           {| py_c := {| st_dtraj := [1%Z]; st_heap := ∅;
                         st_log := [EvDistance 0 0 0 None None;
                                    EvDistance 0 0 1 None None;
                                    EvStore 0 0 1] |};
              py_owned := [(float_matrix 2 2, vec [0; 0; 3; 4]%Z)] |}).
  vm_compute. reflexivity.
Defined.

(** X16: an output array with fewer elements than there are frames is
    not rejected: on arrays that pass every test, with data of the
    announced sizes and a known metric, the engine runs and stores
    beyond the end of the output buffer, which is undefined. *)
Theorem assign_short_dtraj_undefined `{G : Geometry}
    m np_chunk chunk py_centers np_dtraj centers N_frames N_centers dim
    n_threads s :
  accepted np_chunk py_centers np_dtraj centers N_frames N_centers dim →
  length chunk = N_frames * dim → length centers = N_centers * dim →
  length (st_dtraj (py_c s)) < N_frames →
  assign np_chunk chunk py_centers np_dtraj (metric_name m) n_threads
    true true s = None.
Proof.
  intros Hacc Hchunk Hcenters Hlen.
  destruct (assign_with_accepted c_assign np_chunk chunk py_centers np_dtraj
              (metric_name m) n_threads true true s centers N_frames N_centers
              dim Hacc) as (c & Hc & Hcall).
  unfold assign. rewrite Hcall.
  by rewrite c_assign_short.
Qed.

Lemma assign_short_dtraj_undefined_witness :
  assign (G := shift_geometry) (float_matrix 2 2) (vec [4; 4; 0; 1]%Z)
    (Some (float_matrix 2 2, vec [0; 0; 3; 4]%Z)) (int_vector 1)
    "euclidean" 1 true true (py_init [7%Z])
  = None.
Proof.
  apply (assign_short_dtraj_undefined (G := shift_geometry) Euclidean
           (float_matrix 2 2) (vec [4; 4; 0; 1]%Z)
           (Some (float_matrix 2 2, vec [0; 0; 3; 4]%Z)) (int_vector 1)
           (vec [0; 0; 3; 4]%Z) 2 2 2 1 (py_init [7%Z])).
  - repeat split; try reflexivity; try discriminate.
    eexists. repeat split; try reflexivity. discriminate.
  - reflexivity.
  - reflexivity.
  - simpl. lia.
Defined.

(** X17: where the two errors of the engine come from. [assign]
    reports an unknown metric only when every test on the arrays has
    passed and the name is neither of the two known ones, and then the
    memory of the engine is untouched and the state differs from the one
    before by the reference to the converted centres only; it reports
    the memory error only when every test has passed, the metric is
    minRMSD and one of its two allocations failed: the Euclidean metric
    cannot run out of memory. *)
Theorem assign_engine_errors `{G : Geometry}
    np_chunk chunk py_centers np_dtraj metric n_threads ok_a ok_b s e s' :
  assign np_chunk chunk py_centers np_dtraj metric n_threads ok_a ok_b s
  = Some (Py_raise e, s') →
  (e = ErrMetric →
     (∃ centers N_frames N_centers dim,
        accepted np_chunk py_centers np_dtraj centers N_frames N_centers dim)
     ∧ metric ≠ "euclidean" ∧ metric ≠ "minRMSD"
     ∧ py_c s' = py_c s ∧ keeps_centres py_centers s s')
  ∧ (e = ErrNoMemory →
       (∃ centers N_frames N_centers dim,
          accepted np_chunk py_centers np_dtraj centers N_frames N_centers dim)
       ∧ metric = "minRMSD" ∧ (ok_a = false ∨ ok_b = false)).
Proof.
  intros Hcall. unfold assign in Hcall.
  apply assign_with_cases in Hcall
    as [(e' & [= <-] & _ & Hh & _)
       |[(a & e' & _ & [= <-] & He & _)
        |(c & centers & Nf & Nc & dim & st & c' & Hc & Hacc & Heng & -> & Hr)]].
  { split; intros ->; done. }
  { split; intros ->; by destruct He. }
  unfold c_assign in Heng. destruct st; try done; injection Hr as ->.
  - apply c_assign_with_failure in Heng as (_ & _ & Hmem); [|done].
    split; [done|]. intros _. split; [by exists centers, Nf, Nc, dim|].
    by apply Hmem.
  - apply c_assign_with_failure in Heng as (_ & Hinv & _); [|done].
    destruct Hinv as (-> & Hne & Hnm); [done|].
    split; [|done]. intros _. split; [by exists centers, Nf, Nc, dim|].
    split; [done|]. split; [done|]. split; [done|]. by exists (c, centers).
Qed.

Lemma assign_engine_errors_witness :
  (ErrMetric = ErrMetric →
     (∃ centers N_frames N_centers dim,
        accepted (float_matrix 1 2) (Some (float_matrix 2 2, vec [0; 0; 3; 4]%Z))
          (int_vector 1) centers N_frames N_centers dim)
     ∧ "cosine" ≠ "euclidean" ∧ "cosine" ≠ "minRMSD"
     ∧ init_state [7%Z] = init_state [7%Z]
     ∧ keeps_centres (Some (float_matrix 2 2, vec [0; 0; 3; 4]%Z)) (py_init [7%Z])
         {| py_c := init_state [7%Z];
            py_owned := [(float_matrix 2 2, vec [0; 0; 3; 4]%Z)] |})
  ∧ (ErrMetric = ErrNoMemory →
       (∃ centers N_frames N_centers dim,
          accepted (float_matrix 1 2) (Some (float_matrix 2 2, vec [0; 0; 3; 4]%Z))
            (int_vector 1) centers N_frames N_centers dim)
       ∧ "cosine" = "minRMSD" ∧ (true = false ∨ true = false)).
Proof.
  apply (assign_engine_errors (G := shift_geometry)
           (float_matrix 1 2) (vec [4; 4]%Z)
           (Some (float_matrix 2 2, vec [0; 0; 3; 4]%Z)) (int_vector 1)
           "cosine" 1 true true (py_init [7%Z]) ErrMetric
           {| py_c := init_state [7%Z];
              py_owned := [(float_matrix 2 2, vec [0; 0; 3; 4]%Z)] |}).
  vm_compute. reflexivity.
Defined.

(** X19: [assign] never gives back the reference it takes on the
    converted centres. With any engine plugged in, a call that returns
    None or raises after the conversion has succeeded (no centre,
    another dimension, unknown metric, no memory) returns with exactly
    that one reference more than it started with; a call that raises
    before, or because the conversion failed, returns with the
    references it started with. *)
Theorem assign_never_releases_centres
    engine np_chunk chunk py_centers np_dtraj metric n_threads ok_a ok_b s r s' :
  assign_with engine np_chunk chunk py_centers np_dtraj metric n_threads
    ok_a ok_b s = Some (r, s') →
  if holds_centres r then keeps_centres py_centers s s'
  else py_owned s' = py_owned s.
Proof. apply assign_with_owned. Qed.

Lemma assign_never_releases_centres_witness :
  keeps_centres (Some (float_matrix 0 2, [])) (py_init [7%Z])
    {| py_c := init_state [7%Z]; py_owned := [(float_matrix 0 2, [])] |}.
Proof.
  apply (assign_never_releases_centres (c_assign (G := shift_geometry))
           (float_matrix 1 2) (vec [4; 4]%Z) (Some (float_matrix 0 2, []))
           (int_vector 1) "euclidean" 1 true true (py_init [7%Z])
           (Py_raise ErrCentersEmpty)
           {| py_c := init_state [7%Z]; py_owned := [(float_matrix 0 2, [])] |}).
  vm_compute. reflexivity.
Defined.
